(** * The content query and cache-invalidation layer of the portfolio site

    A shallow embedding of
    - [app/api/revalidate/route.ts] (the revalidation webhook),
    - [sanity/lib/image.ts] ([getImageDimensions]),
    - [sanity/lib/client.ts] ([sanityFetch]),
    - [sanity/lib/queries.ts] ([blogPostsQuery], [adjacentProjectsQuery]),
    with the properties the specification states about them. *)

From Stdlib Require Import ZArith NArith Ascii String List OrderedTypeEx.
From stdpp Require Import base option strings list gmap sorting.

Local Open Scope string_scope.

(** ** JavaScript values the sources rely on *)
Module Js.

(** The property names every object literal inherits from [Object.prototype].
    [o[k]] finds them on any object that has no own property [k]. *)
Definition object_prototype_names : list string :=
  [ "constructor"; "__proto__"; "hasOwnProperty"; "isPrototypeOf";
    "propertyIsEnumerable"; "toLocaleString"; "toString"; "valueOf";
    "__defineGetter__"; "__defineSetter__"; "__lookupGetter__";
    "__lookupSetter__" ].

(** What the member access [o[k]] yields on an object literal [o]:
    [undefined], the value of an own property, or a built-in found on the
    prototype (a function, or the prototype object for ["__proto__"]). *)
Inductive property (A : Type) : Type :=
  | Undefined
  | Own (v : A)
  | Inherited.
Arguments Undefined {A}.
Arguments Own {A} v.
Arguments Inherited {A}.

Definition get {A} (o : gmap string A) (k : string) : property A :=
  match o !! k with
  | Some v => Own v
  | None => if bool_decide (k ∈ object_prototype_names) then Inherited else Undefined
  end.

(** Truthiness of a string and of an optional string ([undefined] is falsy). *)
Definition truthy_string (s : string) : bool := negb (String.eqb s "").

Definition truthy_opt_string (o : option string) : bool :=
  match o with
  | Some s => truthy_string s
  | None => false
  end.

(** A thrown value, as far as a [catch] block that tests [err instanceof
    Error] tells them apart: an [Error] (a [TypeError], a [SyntaxError], ...)
    with its message, or any other value. *)
Inductive thrown : Type :=
  | ErrorObject (message : string)
  | OtherValue.

(** Completion of a statement list, and of an awaited promise: it returns
    (the promise is fulfilled), or it throws (the promise is rejected). *)
Inductive completion (A : Type) : Type :=
  | Normal (a : A)
  | Throw (err : thrown).
Arguments Normal {A} a.
Arguments Throw {A} err.

Lemma truthy_string_spec (s : string) : truthy_string s = true <-> s <> "".
Proof.
  unfold truthy_string. rewrite negb_true_iff. apply String.eqb_neq.
Qed.

End Js.

(** ** app/api/revalidate/route.ts *)
Module Revalidate.
Import Js.

(** [type WebhookPayload = { _type: string; _id?: string; slug?: { current?: string } }].
    The handler tests [body?._type] at run time, so the field is optional here. *)
Record Slug : Type := { current : option string }.

Record WebhookPayload : Type := {
  _type : option string;
  _id : option string;
  slug : option Slug
}.

Definition documentTypeToTags : gmap string (list string) :=
  list_to_map
    [ ("homepage", ["homepage"]);
      ("aboutPage", ["aboutPage"]);
      ("contactPage", ["contactPage"]);
      ("siteSettings", ["siteSettings"]);
      ("navigation", ["navigation"]);
      ("blogPost", ["blogPost"]);
      ("project", ["project"]);
      ("popupContent", ["popupContent"]) ].

Definition documentTypeToPath : gmap string string :=
  list_to_map [ ("blogPost", "/blog"); ("project", "/projects") ].

Definition singletonPaths : gmap string string :=
  list_to_map [ ("homepage", "/"); ("aboutPage", "/about"); ("contactPage", "/contact") ].

(** The calls into [next/cache]. [revalidatePath] takes an optional second
    argument (['layout']). *)
Inductive CacheCall : Type :=
  | RevalidateTag (tag : string)
  | RevalidatePath (path : string) (kind : option string).

(** What one run of the handler has done so far: the calls it made into the
    framework cache and its two local arrays. *)
Record Run : Type := {
  calls : list CacheCall;
  revalidatedTags : list string;
  revalidatedPaths : list string
}.

Definition start : Run :=
  {| calls := []; revalidatedTags := []; revalidatedPaths := [] |}.

(** Statements of the handler: a state transformer over [Run] that may throw.
    The state reached before a throw is kept. *)
Definition Stmt (A : Type) : Type := Run -> completion A * Run.

Definition ret {A} (a : A) : Stmt A := fun r => (Normal a, r).

Definition throw {A} (err : thrown) : Stmt A := fun r => (Throw err, r).

(** [await p], for a promise [p] that settles as [c]. *)
Definition await {A} (c : completion A) : Stmt A := fun r => (c, r).

Definition bind {A B} (m : Stmt A) (k : A -> Stmt B) : Stmt B :=
  fun r =>
    match m r with
    | (Normal a, r') => k a r'
    | (Throw e, r') => (Throw e, r')
    end.

Declare Scope stmt_scope.
Delimit Scope stmt_scope with stmt.
Bind Scope stmt_scope with Stmt.
Notation "m ;; k" := (bind m (fun _ => k))
  (at level 100, k at level 200, right associativity) : stmt_scope.
Local Open Scope stmt_scope.

Definition revalidateTag (tag : string) : Stmt unit :=
  fun r => (Normal tt,
            {| calls := calls r ++ [RevalidateTag tag];
               revalidatedTags := revalidatedTags r;
               revalidatedPaths := revalidatedPaths r |}).

Definition revalidatePath (path : string) (kind : option string) : Stmt unit :=
  fun r => (Normal tt,
            {| calls := calls r ++ [RevalidatePath path kind];
               revalidatedTags := revalidatedTags r;
               revalidatedPaths := revalidatedPaths r |}).

Definition push_tag (tag : string) : Stmt unit :=
  fun r => (Normal tt,
            {| calls := calls r;
               revalidatedTags := revalidatedTags r ++ [tag];
               revalidatedPaths := revalidatedPaths r |}).

Definition push_path (path : string) : Stmt unit :=
  fun r => (Normal tt,
            {| calls := calls r;
               revalidatedTags := revalidatedTags r;
               revalidatedPaths := revalidatedPaths r ++ [path] |}).

Definition when (b : bool) (m : Stmt unit) : Stmt unit :=
  if b then m else ret tt.

(** [for (const x of xs) body]. *)
Fixpoint for_of {A} (xs : list A) (body : A -> Stmt unit) : Stmt unit :=
  match xs with
  | [] => ret tt
  | x :: rest => body x ;; for_of rest body
  end.

(** The JSON bodies the handler answers with. *)
Inductive ResponseBody : Type :=
  | Message (message : string)
  | InvalidSignature (message : string) (isValidSignature : option bool)
  | Revalidated (now : Z) (type : string) (tags paths : list string)
  | ErrorBody (message error : string).

Record Response : Type := { status : nat; json : ResponseBody }.

(** What [parseBody] of next-sanity resolves to: the signature verdict
    ([null] when the signature header is missing) and the parsed body ([null]
    when the request body is empty). *)
Record ParsedBody : Type := {
  isValidSignature : option bool;
  body : option WebhookPayload
}.

(** What the handler reads from its surroundings: the environment variable,
    the outcome of [await parseBody(req, secret, true)] and the clock read by
    [Date.now()]. [parseBody] is code of next-sanity: it resolves to a
    [ParsedBody], or it rejects, as when the text of the request body is no
    JSON, whatever the signature. *)
Record Request : Type := {
  SANITY_REVALIDATE_SECRET : option string;
  parseBody : completion ParsedBody;
  now : Z
}.

Definition slug_current (p : WebhookPayload) : option string :=
  match slug p with
  | Some s => current s
  | None => None
  end.

(** Lines 87-98: the tags of the document type. A built-in inherited from the
    prototype is truthy and not iterable: [for...of] throws a [TypeError]. *)
Definition revalidate_tags (type : string) : Stmt unit :=
  match get documentTypeToTags type with
  | Own tags => for_of tags (fun tag => revalidateTag tag ;; push_tag tag)
  | Inherited => throw (ErrorObject "tags is not iterable")
  | Undefined => revalidateTag type ;; push_tag type
  end.

(** Lines 100-140. These statements run only after [revalidate_tags] has
    returned, that is for a [type] that is no inherited name (lemma
    [revalidate_tags_throws_iff]): each path table then holds the type as an
    own property or not at all (lemma [inherited_in_every_table]), and the
    branch for a built-in is never taken. *)
Definition revalidate_paths (type : string) (slug : option string) : Stmt unit :=
  match get documentTypeToPath type with
  | Own base =>
      when (truthy_opt_string slug && truthy_string base)
        (let path := base ++ "/" ++ default "" slug in
         revalidatePath path None ;; push_path path)
  | _ => ret tt
  end ;;
  match get singletonPaths type with
  | Own path => when (truthy_string path) (revalidatePath path None ;; push_path path)
  | _ => ret tt
  end ;;
  when (String.eqb type "siteSettings" || String.eqb type "navigation")
    (revalidatePath "/" (Some "layout") ;; push_path "/ (layout)") ;;
  when (String.eqb type "blogPost")
    (revalidatePath "/blog" None ;; push_path "/blog" ;;
     revalidatePath "/" None ;; push_path "/") ;;
  when (String.eqb type "project")
    (revalidatePath "/projects" None ;; push_path "/projects" ;;
     revalidatePath "/" None ;; push_path "/").

Definition respond (st : nat) (b : ResponseBody) : Stmt Response :=
  ret {| status := st; json := b |}.

(** The body of the [try] block. *)
Definition POST_try (req : Request) : Stmt Response :=
  if negb (truthy_opt_string (SANITY_REVALIDATE_SECRET req)) then
    respond 500 (Message "Missing environment variable SANITY_REVALIDATE_SECRET")
  else
    bind (await (parseBody req)) (fun parsed =>
      if negb (default false (isValidSignature parsed)) then
        respond 401 (InvalidSignature "Invalid signature" (isValidSignature parsed))
      else
        match body parsed with
        | None => respond 400 (Message "Bad Request: missing _type in payload")
        | Some payload =>
            if negb (truthy_opt_string (_type payload)) then
              respond 400 (Message "Bad Request: missing _type in payload")
            else
              let type := default "" (_type payload) in
              revalidate_tags type ;;
              revalidate_paths type (slug_current payload) ;;
              fun r =>
                respond 200
                  (Revalidated (now req) type (revalidatedTags r) (revalidatedPaths r)) r
        end).

(** [err instanceof Error ? err.message : 'Unknown error'] *)
Definition error_text (err : thrown) : string :=
  match err with
  | ErrorObject message => message
  | OtherValue => "Unknown error"
  end.

(** [POST]: the [try] block, and the [catch] that answers 500. The result is
    the response together with the calls made into the framework cache. *)
Definition POST (req : Request) : Response * list CacheCall :=
  match POST_try req start with
  | (Normal resp, r) => (resp, calls r)
  | (Throw err, r) =>
      ({| status := 500; json := ErrorBody "Error processing webhook" (error_text err) |},
       calls r)
  end.

(** The [tags] and [paths] arrays of a response (empty when it has none). *)
Definition response_tags (resp : Response) : list string :=
  match json resp with
  | Revalidated _ _ tags _ => tags
  | _ => []
  end.

Definition response_paths (resp : Response) : list string :=
  match json resp with
  | Revalidated _ _ _ paths => paths
  | _ => []
  end.

(** *** Notions the properties are stated with *)

(** The eight document types of [documentTypeToTags]. *)
Definition known_types : list string :=
  [ "homepage"; "aboutPage"; "contactPage"; "siteSettings"; "navigation";
    "blogPost"; "project"; "popupContent" ].

(** [m] returns normally and only appends: [cs] to the calls, [ts] and [ps]
    to the two arrays. *)
Definition appends (m : Stmt unit) (cs : list CacheCall) (ts ps : list string) : Prop :=
  forall r,
    m r = (Normal tt,
           {| calls := calls r ++ cs;
              revalidatedTags := revalidatedTags r ++ ts;
              revalidatedPaths := revalidatedPaths r ++ ps |}).

(** What the path statements add, for a document type and slug. *)
Definition path_run (type : string) (slug : option string) : Run :=
  (revalidate_paths type slug start).2.

(** What [parseBody] resolved to, when it did. *)
Definition parse_result (req : Request) : option ParsedBody :=
  match parseBody req with
  | Normal p => Some p
  | Throw _ => None
  end.

(** [parseBody] rejected. *)
Definition parse_rejected (req : Request) : bool :=
  match parseBody req with
  | Normal _ => false
  | Throw _ => true
  end.

(** The payload of the request, when [parseBody] resolved to one. *)
Definition request_payload (req : Request) : option WebhookPayload :=
  match parse_result req with
  | Some p => body p
  | None => None
  end.

(** The type named by the request, when its body has one. *)
Definition request_type (req : Request) : option string :=
  match request_payload req with
  | Some payload => _type payload
  | None => None
  end.

Definition request_slug (req : Request) : option string :=
  match request_payload req with
  | Some payload => slug_current payload
  | None => None
  end.

Definition secret_configured (req : Request) : bool :=
  truthy_opt_string (SANITY_REVALIDATE_SECRET req).

(** [parseBody] resolved with the verdict [true]. *)
Definition signature_valid (req : Request) : bool :=
  match parse_result req with
  | Some p => default false (isValidSignature p)
  | None => false
  end.

(** A signed delivery of [payload] at time [n], with the secret configured. *)
Definition webhook (secret : string) (payload : WebhookPayload) (n : Z) : Request :=
  {| SANITY_REVALIDATE_SECRET := Some secret;
     parseBody := Normal {| isValidSignature := Some true; body := Some payload |};
     now := n |}.

(** Two deliveries of one notification: the same environment variable and
    the same outcome of [parseBody] (the same verdict and body, or the same
    rejection), read at two times. *)
Definition replay_of (first second : Request) : Prop :=
  SANITY_REVALIDATE_SECRET second = SANITY_REVALIDATE_SECRET first
  /\ parseBody second = parseBody first.

(** The request [req] as it is read at time [n]. *)
Definition at_time (req : Request) (n : Z) : Request :=
  {| SANITY_REVALIDATE_SECRET := SANITY_REVALIDATE_SECRET req;
     parseBody := parseBody req;
     now := n |}.

(** The payload has a [_type] field, whatever its value. *)
Definition has_type_field (req : Request) : bool :=
  match request_type req with
  | Some _ => true
  | None => false
  end.

(** The status the specification assigns to a request, in its words: 500
    when the secret is not configured, otherwise 401 when the signature is
    invalid, otherwise 400 when the payload lacks the [_type] field, otherwise
    200. *)
Definition claimed_status (req : Request) : nat :=
  if negb (secret_configured req) then 500
  else if negb (signature_valid req) then 401
  else if negb (has_type_field req) then 400
  else 200.

(** Every way a request can be answered. *)
Inductive Answer (req : Request) : Prop :=
  | MissingSecret :
      secret_configured req = false ->
      POST req
      = ({| status := 500;
            json := Message "Missing environment variable SANITY_REVALIDATE_SECRET" |}, []) ->
      Answer req
  | ParseRejected (err : thrown) :
      secret_configured req = true ->
      parseBody req = Throw err ->
      POST req
      = ({| status := 500;
            json := ErrorBody "Error processing webhook" (error_text err) |}, []) ->
      Answer req
  | BadSignature (p : ParsedBody) :
      secret_configured req = true ->
      parseBody req = Normal p ->
      signature_valid req = false ->
      POST req
      = ({| status := 401;
            json := InvalidSignature "Invalid signature" (isValidSignature p) |}, []) ->
      Answer req
  | MissingType :
      secret_configured req = true ->
      signature_valid req = true ->
      truthy_opt_string (request_type req) = false ->
      POST req
      = ({| status := 400; json := Message "Bad Request: missing _type in payload" |}, []) ->
      Answer req
  | Crashed (t : string) :
      secret_configured req = true ->
      signature_valid req = true ->
      request_type req = Some t ->
      t ∈ object_prototype_names ->
      POST req
      = ({| status := 500;
            json := ErrorBody "Error processing webhook" "tags is not iterable" |}, []) ->
      Answer req
  | Accepted (t : string) :
      secret_configured req = true ->
      signature_valid req = true ->
      request_type req = Some t ->
      t <> "" ->
      t ∉ object_prototype_names ->
      POST req
      = ({| status := 200;
            json := Revalidated (now req) t [t]
                      (revalidatedPaths (path_run t (request_slug req))) |},
         RevalidateTag t :: calls (path_run t (request_slug req))) ->
      Answer req.

(** *** The tables *)

Ltac list_cases H :=
  repeat (apply elem_of_cons in H as [-> | H]); try (apply elem_of_nil in H; destruct H).

Ltac lookup_absent :=
  cbn [list_to_map foldr uncurry fst snd];
  rewrite ?lookup_insert_ne by (intros <-; set_solver);
  apply lookup_empty.

Lemma tags_lookup_known (t : string) :
  t ∈ known_types -> documentTypeToTags !! t = Some [t].
Proof. intros H. unfold known_types in H. list_cases H; vm_compute; reflexivity. Qed.

Lemma tags_lookup_unknown (t : string) :
  t ∉ known_types -> documentTypeToTags !! t = None.
Proof. intros H. unfold documentTypeToTags, known_types in *. lookup_absent. Qed.

Lemma path_lookup_unknown (t : string) :
  t ∉ known_types -> documentTypeToPath !! t = None.
Proof. intros H. unfold documentTypeToPath, known_types in *. lookup_absent. Qed.

Lemma singleton_lookup_unknown (t : string) :
  t ∉ known_types -> singletonPaths !! t = None.
Proof. intros H. unfold singletonPaths, known_types in *. lookup_absent. Qed.

Lemma tags_lookup_Some_known (t : string) (v : list string) :
  documentTypeToTags !! t = Some v -> t ∈ known_types.
Proof.
  intros H. destruct (decide (t ∈ known_types)) as [Hk | Hk]; [done|].
  rewrite (tags_lookup_unknown _ Hk) in H. discriminate.
Qed.

Lemma known_not_inherited (t : string) :
  t ∈ known_types -> t ∉ object_prototype_names.
Proof.
  intros H. unfold known_types in H.
  list_cases H; apply (bool_decide_eq_false_1 _); vm_compute; reflexivity.
Qed.

(** *** Statements that only append to the run *)

Lemma appends_ret : appends (ret tt) [] [] [].
Proof. intros [c t p]. unfold ret. cbn. by rewrite !app_nil_r. Qed.

Lemma appends_revalidateTag tag : appends (revalidateTag tag) [RevalidateTag tag] [] [].
Proof. intros [c t p]. unfold revalidateTag. cbn. by rewrite !app_nil_r. Qed.

Lemma appends_revalidatePath path kind :
  appends (revalidatePath path kind) [RevalidatePath path kind] [] [].
Proof. intros [c t p]. unfold revalidatePath. cbn. by rewrite !app_nil_r. Qed.

Lemma appends_push_tag tag : appends (push_tag tag) [] [tag] [].
Proof. intros [c t p]. unfold push_tag. cbn. by rewrite !app_nil_r. Qed.

Lemma appends_push_path path : appends (push_path path) [] [] [path].
Proof. intros [c t p]. unfold push_path. cbn. by rewrite !app_nil_r. Qed.

Lemma appends_seq m k cs ts ps cs' ts' ps' :
  appends m cs ts ps -> appends k cs' ts' ps' ->
  appends (m ;; k) (cs ++ cs') (ts ++ ts') (ps ++ ps').
Proof.
  intros Hm Hk r. unfold bind. rewrite Hm, Hk. cbn. by rewrite !app_assoc.
Qed.

Lemma appends_when (b : bool) m cs ts ps :
  appends m cs ts ps ->
  appends (when b m) (if b then cs else []) (if b then ts else []) (if b then ps else []).
Proof. intros Hm. destruct b; [exact Hm | apply appends_ret]. Qed.

Lemma appends_seq_paths m k cs ps cs' ps' :
  appends m cs [] ps -> appends k cs' [] ps' ->
  appends (m ;; k) (cs ++ cs') [] (ps ++ ps').
Proof. intros Hm Hk. exact (appends_seq _ _ _ _ _ _ _ _ Hm Hk). Qed.

Ltac appends_steps :=
  repeat first
    [ eassumption
    | apply appends_ret
    | apply appends_revalidatePath
    | apply appends_push_path
    | eapply appends_seq_paths ].

(** The three tables are object literals: a name is found on the prototype
    of one exactly when it is an inherited name, whichever table is asked. *)
Lemma inherited_in_every_table (type : string) :
  (get documentTypeToTags type = Inherited <-> type ∈ object_prototype_names)
  /\ (get documentTypeToPath type = Inherited -> type ∈ object_prototype_names)
  /\ (get singletonPaths type = Inherited -> type ∈ object_prototype_names).
Proof.
  unfold get. repeat split.
  - destruct (documentTypeToTags !! type); [discriminate|].
    destruct (bool_decide _) eqn:E; [|discriminate]. intros _. by apply bool_decide_eq_true in E.
  - intros Hp. destruct (documentTypeToTags !! type) as [v|] eqn:Ev.
    + apply tags_lookup_Some_known in Ev. by apply known_not_inherited in Ev.
    + by rewrite (bool_decide_eq_true_2 _ Hp).
  - destruct (documentTypeToPath !! type); [discriminate|].
    destruct (bool_decide _) eqn:E; [|discriminate]. intros _. by apply bool_decide_eq_true in E.
  - destruct (singletonPaths !! type); [discriminate|].
    destruct (bool_decide _) eqn:E; [|discriminate]. intros _. by apply bool_decide_eq_true in E.
Qed.

(** The path statements never throw and leave [revalidatedTags] alone. *)
Lemma revalidate_paths_appends (type : string) (slug : option string) :
  exists cs ps, appends (revalidate_paths type slug) cs [] ps.
Proof.
  unfold revalidate_paths.
  assert (H1 : exists cs ps,
             appends (match get documentTypeToPath type with
                      | Own base =>
                          when (truthy_opt_string slug && truthy_string base)
                            (let path := base ++ "/" ++ default "" slug in
                             revalidatePath path None ;; push_path path)
                      | _ => ret tt
                      end) cs [] ps).
  { destruct (get documentTypeToPath type) as [|base|].
    - do 2 eexists. appends_steps.
    - destruct (truthy_opt_string slug && truthy_string base); cbn [when].
      + cbv zeta. do 2 eexists. appends_steps.
      + do 2 eexists. appends_steps.
    - do 2 eexists. appends_steps. }
  assert (H2 : exists cs ps,
             appends (match get singletonPaths type with
                      | Own path =>
                          when (truthy_string path)
                            (revalidatePath path None ;; push_path path)
                      | _ => ret tt
                      end) cs [] ps).
  { destruct (get singletonPaths type) as [|path|].
    - do 2 eexists. appends_steps.
    - destruct (truthy_string path); cbn [when].
      + cbv zeta. do 2 eexists. appends_steps.
      + do 2 eexists. appends_steps.
    - do 2 eexists. appends_steps. }
  destruct H1 as (cs1 & ps1 & H1), H2 as (cs2 & ps2 & H2).
  destruct (String.eqb type "siteSettings" || String.eqb type "navigation"),
    (String.eqb type "blogPost"), (String.eqb type "project"); cbn [when];
    do 2 eexists; appends_steps.
Qed.

Lemma revalidate_tags_returns (type : string) (r : Run) :
  type ∉ object_prototype_names ->
  revalidate_tags type r
  = (Normal tt,
     {| calls := calls r ++ [RevalidateTag type];
        revalidatedTags := revalidatedTags r ++ [type];
        revalidatedPaths := revalidatedPaths r |}).
Proof.
  intros Hp. unfold revalidate_tags, get.
  destruct (decide (type ∈ known_types)) as [Hk | Hk].
  - rewrite (tags_lookup_known _ Hk). reflexivity.
  - rewrite (tags_lookup_unknown _ Hk), (bool_decide_eq_false_2 _ Hp). reflexivity.
Qed.

Lemma revalidate_tags_throws (type : string) (r : Run) :
  type ∈ object_prototype_names ->
  revalidate_tags type r = (Throw (ErrorObject "tags is not iterable"), r).
Proof.
  intros Hp. unfold object_prototype_names in Hp.
  list_cases Hp; vm_compute; reflexivity.
Qed.

(** [revalidate_tags] throws exactly on the inherited names, so the path
    statements after it run only for the other types. *)
Lemma revalidate_tags_throws_iff (type : string) (r : Run) :
  (exists e, (revalidate_tags type r).1 = Throw e) <-> type ∈ object_prototype_names.
Proof.
  split.
  - intros [e He]. destruct (decide (type ∈ object_prototype_names)) as [|Hn]; [done|].
    rewrite (revalidate_tags_returns _ _ Hn) in He. discriminate.
  - intros Hp. rewrite (revalidate_tags_throws _ _ Hp). eauto.
Qed.

Lemma revalidate_paths_frame (type : string) (slug : option string) (r : Run) :
  revalidate_paths type slug r
  = (Normal tt,
     {| calls := calls r ++ calls (path_run type slug);
        revalidatedTags := revalidatedTags r;
        revalidatedPaths := revalidatedPaths r ++ revalidatedPaths (path_run type slug) |}).
Proof.
  destruct (revalidate_paths_appends type slug) as (cs & ps & H).
  unfold path_run. rewrite (H start), (H r). cbn. by rewrite app_nil_r.
Qed.

(** A request that passes the three guards with a type that is no inherited
    name is answered 200; its tags are the type name alone. *)
Lemma POST_accepted (req : Request) (t : string) :
  secret_configured req = true ->
  signature_valid req = true ->
  request_type req = Some t ->
  t <> "" ->
  t ∉ object_prototype_names ->
  POST req
  = ({| status := 200;
        json := Revalidated (now req) t [t]
                  (revalidatedPaths (path_run t (request_slug req))) |},
     RevalidateTag t :: calls (path_run t (request_slug req))).
Proof.
  intros Hs Hv Ht Hne Hp.
  unfold secret_configured, signature_valid, request_type, request_slug,
    request_payload, parse_result in *.
  unfold POST, POST_try, await. rewrite Hs. cbn [negb]. unfold bind at 1.
  destruct (parseBody req) as [p|err]; [|discriminate].
  rewrite Hv. cbn [negb].
  destruct (body p) as [payload|]; [|discriminate].
  rewrite Ht. cbn [truthy_opt_string default].
  rewrite (proj2 (truthy_string_spec t) Hne). cbn [negb].
  unfold bind. rewrite (revalidate_tags_returns _ _ Hp), revalidate_paths_frame.
  reflexivity.
Qed.

(** A request that passes the three guards with an inherited name as its type
    is answered by the [catch] block, before any call into the cache. *)
Lemma POST_inherited (req : Request) (t : string) :
  secret_configured req = true ->
  signature_valid req = true ->
  request_type req = Some t ->
  t ∈ object_prototype_names ->
  POST req
  = ({| status := 500;
        json := ErrorBody "Error processing webhook" "tags is not iterable" |}, []).
Proof.
  intros Hs Hv Ht Hp.
  assert (Hne : truthy_string t = true).
  { unfold object_prototype_names in Hp. list_cases Hp; reflexivity. }
  unfold secret_configured, signature_valid, request_type, request_payload, parse_result in *.
  unfold POST, POST_try, await. rewrite Hs. cbn [negb]. unfold bind at 1.
  destruct (parseBody req) as [p|err]; [|discriminate].
  rewrite Hv. cbn [negb].
  destruct (body p) as [payload|]; [|discriminate].
  rewrite Ht. cbn [truthy_opt_string default]. rewrite Hne. cbn [negb].
  unfold bind. rewrite (revalidate_tags_throws _ _ Hp). reflexivity.
Qed.

(** The paths of a type that no table and no comparison of the handler knows. *)
Lemma path_run_unknown (t : string) (slug : option string) :
  t ∉ known_types -> path_run t slug = start.
Proof.
  intros Hk. unfold path_run, revalidate_paths, get.
  rewrite (path_lookup_unknown _ Hk), (singleton_lookup_unknown _ Hk).
  assert (E : forall k, k ∈ known_types -> String.eqb t k = false).
  { intros k Hin. apply String.eqb_neq. intros ->. contradiction. }
  rewrite !E by (unfold known_types; set_solver).
  destruct (bool_decide (t ∈ object_prototype_names)); reflexivity.
Qed.

Lemma POST_cases (req : Request) : Answer req.
Proof.
  destruct (secret_configured req) eqn:Hs.
  2:{ apply MissingSecret; [done|]. unfold secret_configured in Hs.
      unfold POST, POST_try. by rewrite Hs. }
  destruct (parseBody req) as [p|err] eqn:Ep.
  2:{ apply (ParseRejected req err); [done..|]. unfold secret_configured in Hs.
      unfold POST, POST_try, await, bind. by rewrite Hs, Ep. }
  destruct (signature_valid req) eqn:Hv.
  2:{ apply (BadSignature req p); [done..|].
      unfold secret_configured, signature_valid, parse_result in *. rewrite Ep in Hv.
      unfold POST, POST_try, await, bind. by rewrite Hs, Ep, Hv. }
  destruct (truthy_opt_string (request_type req)) eqn:Ht.
  2:{ apply MissingType; [done..|].
      unfold secret_configured, signature_valid, request_type, request_payload, parse_result in *.
      rewrite Ep in Hv, Ht.
      unfold POST, POST_try, await. rewrite Hs. cbn [negb]. unfold bind at 1.
      rewrite Ep, Hv. cbn [negb].
      destruct (body p) as [payload|]; [|done]. by rewrite Ht. }
  destruct (request_type req) as [t|] eqn:Et; [|discriminate].
  cbn in Ht. apply truthy_string_spec in Ht.
  destruct (decide (t ∈ object_prototype_names)) as [Hp | Hp].
  - apply (Crashed req t); try done. by apply (POST_inherited req t).
  - apply (Accepted req t); try done. by apply POST_accepted.
Qed.

(** *** The webhook scenarios *)

Lemma webhook_passes_guards (secret : string) (payload : WebhookPayload) (n : Z) :
  secret <> "" ->
  secret_configured (webhook secret payload n) = true
  /\ signature_valid (webhook secret payload n) = true.
Proof. intros H. split; [by apply truthy_string_spec | reflexivity]. Qed.

(** C1. A signed POST of [{_type: "blogPost", slug: {current: "my-post"}}],
    with the secret configured, is answered 200; the tags are ["blogPost"] and
    the paths are the detail path, the listing page and the homepage, each of
    them passed to [revalidatePath]. *)
Theorem blog_post_webhook_invalidates_detail_listing_home
    (secret : string) (id : option string) (n : Z) :
  secret <> "" ->
  let payload := {| _type := Some "blogPost"; _id := id;
                    slug := Some {| current := Some "my-post" |} |} in
  let result := POST (webhook secret payload n) in
  status result.1 = 200
  /\ response_tags result.1 = ["blogPost"]
  /\ response_paths result.1 = ["/blog/my-post"; "/blog"; "/"]
  /\ "/blog/my-post" ∈ response_paths result.1
  /\ "/blog" ∈ response_paths result.1
  /\ "/" ∈ response_paths result.1
  /\ result.2 = [ RevalidateTag "blogPost"; RevalidatePath "/blog/my-post" None;
                  RevalidatePath "/blog" None; RevalidatePath "/" None ].
Proof.
  intros Hs payload result.
  destruct (webhook_passes_guards secret payload n Hs) as [H1 H2].
  assert (E : result
              = ({| status := 200;
                    json := Revalidated n "blogPost" ["blogPost"]
                              ["/blog/my-post"; "/blog"; "/"] |},
                 [ RevalidateTag "blogPost"; RevalidatePath "/blog/my-post" None;
                   RevalidatePath "/blog" None; RevalidatePath "/" None ])).
  { subst result. rewrite (POST_accepted _ "blogPost" H1 H2 eq_refl); [reflexivity|done|].
    apply known_not_inherited. repeat constructor. }
  rewrite E. cbn. repeat split; repeat constructor.
Qed.

Lemma blog_post_webhook_witness :
  let result :=
    POST (webhook "whsec" {| _type := Some "blogPost"; _id := Some "post-1";
                             slug := Some {| current := Some "my-post" |} |} 1700000000000) in
  status result.1 = 200
  /\ response_tags result.1 = ["blogPost"]
  /\ response_paths result.1 = ["/blog/my-post"; "/blog"; "/"]
  /\ "/blog/my-post" ∈ response_paths result.1
  /\ "/blog" ∈ response_paths result.1
  /\ "/" ∈ response_paths result.1
  /\ result.2 = [ RevalidateTag "blogPost"; RevalidatePath "/blog/my-post" None;
                  RevalidatePath "/blog" None; RevalidatePath "/" None ].
Proof.
  apply (blog_post_webhook_invalidates_detail_listing_home
           "whsec" (Some "post-1") 1700000000000).
  discriminate.
Defined.

(** C4. A signed POST of [{_type: "siteSettings"}] is answered 200 with tags
    ["siteSettings"] and the path "/ (layout)", after [revalidatePath('/',
    'layout')]; the same holds for "navigation". Neither the id nor a slug in
    the payload changes that. *)
Theorem settings_and_navigation_invalidate_layout
    (secret : string) (t : string) (id : option string) (sl : option Slug) (n : Z) :
  secret <> "" ->
  t = "siteSettings" \/ t = "navigation" ->
  let result := POST (webhook secret {| _type := Some t; _id := id; slug := sl |} n) in
  status result.1 = 200
  /\ response_tags result.1 = [t]
  /\ "/ (layout)" ∈ response_paths result.1
  /\ response_paths result.1 = ["/ (layout)"]
  /\ result.2 = [RevalidateTag t; RevalidatePath "/" (Some "layout")].
Proof.
  intros Hs Ht result.
  destruct (webhook_passes_guards secret {| _type := Some t; _id := id; slug := sl |} n Hs)
    as [H1 H2].
  assert (Hk : t ∈ known_types) by (destruct Ht as [-> | ->]; repeat constructor).
  assert (E : result
              = ({| status := 200; json := Revalidated n t [t] ["/ (layout)"] |},
                 [RevalidateTag t; RevalidatePath "/" (Some "layout")])).
  { subst result.
    rewrite (POST_accepted _ t H1 H2 eq_refl);
      [ | by intros ->; destruct Ht | by apply known_not_inherited ].
    by destruct Ht; subst t. }
  rewrite E. cbn. repeat split. repeat constructor.
Qed.

Lemma settings_webhook_witness :
  let result :=
    POST (webhook "whsec" {| _type := Some "siteSettings"; _id := None; slug := None |} 5) in
  status result.1 = 200
  /\ response_tags result.1 = ["siteSettings"]
  /\ "/ (layout)" ∈ response_paths result.1
  /\ response_paths result.1 = ["/ (layout)"]
  /\ result.2 = [RevalidateTag "siteSettings"; RevalidatePath "/" (Some "layout")].
Proof.
  apply (settings_and_navigation_invalidate_layout "whsec" "siteSettings" None None 5).
  - discriminate.
  - left. reflexivity.
Defined.

(** *** The order of the status codes *)

(** The claimed status order fails on three requests with the secret
    configured. Two are signed: a payload whose [_type] is the empty string has
    the field and is answered 400, and a payload whose [_type] is "constructor"
    is answered 500. The third is a delivery whose body is no JSON, so that
    [parseBody] rejects and no valid verdict is returned: it is answered 500
    by the [catch] block, not 401. *)
Lemma claimed_status_differs_from_the_answer :
  let empty := webhook "whsec" {| _type := Some ""; _id := None; slug := None |} 0 in
  let named := webhook "whsec" {| _type := Some "constructor"; _id := None; slug := None |} 0 in
  let unparsable :=
    {| SANITY_REVALIDATE_SECRET := Some "whsec";
       parseBody := Throw (ErrorObject "Unexpected end of JSON input");
       now := 0 |} in
  (claimed_status empty = 200 /\ status (POST empty).1 = 400)
  /\ (claimed_status named = 200 /\ status (POST named).1 = 500)
  /\ (claimed_status unparsable = 401 /\ status (POST unparsable).1 = 500).
Proof. vm_compute. auto. Qed.

(** C2, amended. The status is 500 when the secret is not configured (unset
    or empty); otherwise 500 when [parseBody] rejects, as it does for a body
    that is no JSON, whatever the signature; otherwise 401 when the verdict
    of [parseBody] is not [true]; in the last two cases nothing is invalidated:
    no call into the cache, no tags, no paths; otherwise 400 when the body is
    missing or its [_type] is missing or empty; otherwise 200, for every
    [_type] that is no name inherited from [Object.prototype]. *)
Theorem status_is_decided_in_order (req : Request) :
  (secret_configured req = false -> status (POST req).1 = 500)
  /\ (secret_configured req = true -> parse_rejected req = true ->
      status (POST req).1 = 500
      /\ (POST req).2 = []
      /\ response_tags (POST req).1 = []
      /\ response_paths (POST req).1 = [])
  /\ (secret_configured req = true -> parse_rejected req = false ->
      signature_valid req = false ->
      status (POST req).1 = 401
      /\ (POST req).2 = []
      /\ response_tags (POST req).1 = []
      /\ response_paths (POST req).1 = [])
  /\ (secret_configured req = true -> signature_valid req = true ->
      truthy_opt_string (request_type req) = false ->
      status (POST req).1 = 400)
  /\ (secret_configured req = true -> signature_valid req = true ->
      forall t, request_type req = Some t -> t <> "" -> t ∉ object_prototype_names ->
      status (POST req).1 = 200).
Proof.
  assert (Hrej : forall err, parseBody req = Throw err ->
                   parse_rejected req = true /\ signature_valid req = false).
  { intros err Ep. unfold parse_rejected, signature_valid, parse_result. by rewrite Ep. }
  assert (Hres : forall p, parseBody req = Normal p -> parse_rejected req = false).
  { intros p Ep. unfold parse_rejected. by rewrite Ep. }
  assert (Hval : signature_valid req = true -> parse_rejected req = false).
  { unfold parse_rejected, signature_valid, parse_result. by destruct (parseBody req). }
  destruct (POST_cases req)
    as [Hs E | err Hs Ep E | p Hs Ep Hv E | Hs Hv Ht E | t Hs Hv Ht Hp E | t Hs Hv Ht Hne Hp E];
    try (destruct (Hrej err Ep) as [Hr Hv]);
    try (pose proof (Hres p Ep) as Hr);
    rewrite E; cbn [fst snd status json response_tags response_paths];
    (split; [|split; [|split; [|split]]]); intros; try congruence; auto.
  all: try match goal with
           | H : parse_rejected _ = true |- _ => rewrite (Hval Hv) in H; discriminate
           end.
  - match goal with H : request_type req = Some _ |- _ => rewrite H in Ht end.
    cbn in Ht. match goal with H : _ <> "" |- _ => apply truthy_string_spec in H end.
    congruence.
  - match goal with H : truthy_opt_string _ = false |- _ => rewrite Ht in H; cbn in H end.
    unfold object_prototype_names in Hp. list_cases Hp; discriminate.
  - match goal with H : truthy_opt_string _ = false |- _ => rewrite Ht in H; cbn in H end.
    apply truthy_string_spec in Hne. congruence.
Qed.

Lemma status_order_witness :
  status (POST {| SANITY_REVALIDATE_SECRET := None;
                  parseBody := Normal {| isValidSignature := Some true;
                                         body := Some {| _type := Some "project"; _id := None;
                                                         slug := None |} |};
                  now := 0 |}).1 = 500
  /\ status (POST {| SANITY_REVALIDATE_SECRET := Some "whsec";
                     parseBody := Throw (ErrorObject "Unexpected end of JSON input");
                     now := 0 |}).1 = 500
  /\ status (POST {| SANITY_REVALIDATE_SECRET := Some "whsec";
                     parseBody := Normal {| isValidSignature := Some false;
                                            body := Some {| _type := Some "project"; _id := None;
                                                            slug := None |} |};
                     now := 0 |}).1 = 401
  /\ status (POST (webhook "whsec" {| _type := None; _id := None; slug := None |} 0)).1 = 400
  /\ status (POST (webhook "whsec" {| _type := Some "project"; _id := None; slug := None |} 0)).1
     = 200.
Proof.
  split; [|split; [|split; [|split]]].
  - apply (proj1 (status_is_decided_in_order
             {| SANITY_REVALIDATE_SECRET := None;
                parseBody := Normal {| isValidSignature := Some true;
                                       body := Some {| _type := Some "project"; _id := None;
                                                       slug := None |} |};
                now := 0 |})).
    reflexivity.
  - apply (proj1 (proj2 (status_is_decided_in_order
             {| SANITY_REVALIDATE_SECRET := Some "whsec";
                parseBody := Throw (ErrorObject "Unexpected end of JSON input");
                now := 0 |}))); reflexivity.
  - apply (proj1 (proj2 (proj2 (status_is_decided_in_order
             {| SANITY_REVALIDATE_SECRET := Some "whsec";
                parseBody := Normal {| isValidSignature := Some false;
                                       body := Some {| _type := Some "project"; _id := None;
                                                       slug := None |} |};
                now := 0 |})))); reflexivity.
  - apply (proj1 (proj2 (proj2 (proj2 (status_is_decided_in_order
             (webhook "whsec" {| _type := None; _id := None; slug := None |} 0))))));
      reflexivity.
  - apply (proj2 (proj2 (proj2 (proj2 (status_is_decided_in_order
             (webhook "whsec" {| _type := Some "project"; _id := None; slug := None |} 0)))))
             eq_refl eq_refl "project" eq_refl).
    + discriminate.
    + apply (bool_decide_eq_false_1 _). vm_compute. reflexivity.
Defined.

(** *** Types outside the tables *)

(** C3 at the input where it fails: the signed payload [{_type: "constructor"}]
    names a type that is in no table, yet the lookup [documentTypeToTags[_type]]
    finds [Object.prototype.constructor], iterating it throws, and the answer
    is the 500 of the [catch] block with no tag revalidated. *)
Theorem constructor_type_is_answered_500 :
  ("constructor" ∉ known_types)
  /\ POST (webhook "whsec" {| _type := Some "constructor"; _id := None; slug := None |} 0)
     = ({| status := 500;
           json := ErrorBody "Error processing webhook" "tags is not iterable" |}, []).
Proof.
  split; [|vm_compute; reflexivity].
  apply (bool_decide_eq_false_1 _). vm_compute. reflexivity.
Qed.

(** The fallback as the handler's comment describes it, for every type that
    is in no table and is no inherited name. *)
Lemma unknown_type_falls_back_to_its_name
    (secret t : string) (id : option string) (sl : option Slug) (n : Z) :
  secret <> "" -> t <> "" -> t ∉ known_types -> t ∉ object_prototype_names ->
  POST (webhook secret {| _type := Some t; _id := id; slug := sl |} n)
  = ({| status := 200; json := Revalidated n t [t] [] |}, [RevalidateTag t]).
Proof.
  intros Hs Hne Hk Hp.
  destruct (webhook_passes_guards secret {| _type := Some t; _id := id; slug := sl |} n Hs)
    as [H1 H2].
  rewrite (POST_accepted _ t H1 H2 eq_refl Hne Hp), (path_run_unknown _ _ Hk).
  reflexivity.
Qed.

Example unknownType_scenario :
  POST (webhook "whsec" {| _type := Some "unknownType"; _id := None; slug := None |} 3)
  = ({| status := 200; json := Revalidated 3 "unknownType" ["unknownType"] [] |},
     [RevalidateTag "unknownType"]).
Proof. vm_compute. reflexivity. Qed.

(** *** Replaying a notification *)

(** Two signed deliveries of a payload with a present [_type] need not be
    answered 200: with the empty string as [_type] both are answered 400, with
    "constructor" both are answered 500. *)
Lemma replay_claim_fails_on_empty_and_inherited_type :
  let empty := {| _type := Some ""; _id := None; slug := None |} in
  let named := {| _type := Some "constructor"; _id := None; slug := None |} in
  (has_type_field (webhook "whsec" empty 1) = true
   /\ status (POST (webhook "whsec" empty 1)).1 = 400
   /\ status (POST (webhook "whsec" empty 2)).1 = 400)
  /\ (has_type_field (webhook "whsec" named 1) = true
      /\ status (POST (webhook "whsec" named 1)).1 = 500
      /\ status (POST (webhook "whsec" named 2)).1 = 500).
Proof. vm_compute. auto. Qed.

Lemma replay_is_at_time (first second : Request) :
  replay_of first second -> second = at_time first (now second).
Proof.
  destruct first, second. unfold replay_of, at_time. cbn.
  intros (-> & ->). reflexivity.
Qed.

(** The clock reaches the [now] field of the answer and nothing else. *)
Lemma POST_at_time (req : Request) (n : Z) :
  (POST (at_time req n)).2 = (POST req).2
  /\ status (POST (at_time req n)).1 = status (POST req).1
  /\ response_tags (POST (at_time req n)).1 = response_tags (POST req).1
  /\ response_paths (POST (at_time req n)).1 = response_paths (POST req).1.
Proof.
  unfold POST, POST_try, at_time, await, bind.
  cbn [SANITY_REVALIDATE_SECRET parseBody now].
  destruct (negb (truthy_opt_string (SANITY_REVALIDATE_SECRET req))); [by repeat split|].
  destruct (parseBody req) as [p|err]; [|by repeat split].
  destruct (negb (default false (isValidSignature p))); [by repeat split|].
  destruct (body p) as [payload|]; [|by repeat split].
  destruct (negb (truthy_opt_string (_type payload))); [by repeat split|].
  destruct (revalidate_tags _ start) as [[[]|e] r1]; [|by repeat split].
  destruct (revalidate_paths _ _ r1) as [[[]|e] r2]; by repeat split.
Qed.

(** C6, amended. A replayed delivery gets the status, the tags and the paths
    of the first one and makes exactly the calls into the cache that the first
    one made, so the entries it marks stale are those already marked; when the
    secret is configured, the signature valid and [_type] a non-empty string
    that is no name inherited from [Object.prototype], both are answered 200. *)
Theorem replay_repeats_the_first_answer (first second : Request) :
  replay_of first second ->
  (status (POST second).1 = status (POST first).1
   /\ response_tags (POST second).1 = response_tags (POST first).1
   /\ response_paths (POST second).1 = response_paths (POST first).1
   /\ (POST second).2 = (POST first).2
   /\ (forall c, c ∈ ((POST first).2 ++ (POST second).2)%list <-> c ∈ (POST first).2))
  /\ (forall t,
        secret_configured first = true -> signature_valid first = true ->
        request_type first = Some t -> t <> "" -> t ∉ object_prototype_names ->
        status (POST first).1 = 200 /\ status (POST second).1 = 200).
Proof.
  intros (Hsec & Hparse).
  assert (Hcalls : (POST second).2 = (POST first).2
                   /\ status (POST second).1 = status (POST first).1
                   /\ response_tags (POST second).1 = response_tags (POST first).1
                   /\ response_paths (POST second).1 = response_paths (POST first).1).
  { rewrite (replay_is_at_time first second (conj Hsec Hparse)).
    apply POST_at_time. }
  destruct Hcalls as (Hc & Hst & Htg & Hpa).
  split.
  - repeat split; try assumption.
    + rewrite Hc, elem_of_app. tauto.
    + rewrite Hc. intros Hin. apply elem_of_app. by left.
  - intros t H1 H2 H3 H4 H5.
    assert (E : status (POST first).1 = 200)
      by (rewrite (POST_accepted first t H1 H2 H3 H4 H5); reflexivity).
    split; [exact E | congruence].
Qed.

Lemma replay_witness :
  status (POST (webhook "whsec" {| _type := Some "project"; _id := None;
                                   slug := Some {| current := Some "vase" |} |} 1)).1 = 200
  /\ status (POST (webhook "whsec" {| _type := Some "project"; _id := None;
                                      slug := Some {| current := Some "vase" |} |} 2)).1 = 200.
Proof.
  apply (proj2 (replay_repeats_the_first_answer
                  (webhook "whsec" {| _type := Some "project"; _id := None;
                                      slug := Some {| current := Some "vase" |} |} 1)
                  (webhook "whsec" {| _type := Some "project"; _id := None;
                                      slug := Some {| current := Some "vase" |} |} 2)
                  (conj eq_refl eq_refl)) "project");
    try reflexivity.
  - discriminate.
  - apply (bool_decide_eq_false_1 _). vm_compute. reflexivity.
Defined.

(** *** The tags of a 200 answer *)

Lemma tags_lookup_Some (k : string) (v : list string) :
  documentTypeToTags !! k = Some v -> k ∈ known_types /\ v = [k].
Proof.
  intros H. destruct (decide (k ∈ known_types)) as [Hk | Hk].
  - rewrite (tags_lookup_known _ Hk) in H. split; congruence.
  - rewrite (tags_lookup_unknown _ Hk) in H. discriminate.
Qed.

(** Two signed payloads with a [_type] whose answer carries no tags: the
    empty type is answered 400 and "constructor" is answered 500. *)
Lemma accepted_payload_without_tags :
  let empty := webhook "whsec" {| _type := Some ""; _id := None; slug := None |} 0 in
  let named := webhook "whsec" {| _type := Some "constructor"; _id := None; slug := None |} 0 in
  (signature_valid empty = true /\ request_type empty = Some ""
   /\ status (POST empty).1 = 400 /\ response_tags (POST empty).1 = [])
  /\ (signature_valid named = true /\ request_type named = Some "constructor"
      /\ status (POST named).1 = 500 /\ response_tags (POST named).1 = []).
Proof. split; repeat split; vm_compute; reflexivity. Qed.

(** C10, amended. The table has eight entries and maps each of its types to
    the list holding that type's name alone, so the branch for a known type
    does what the fallback branch does. In every 200 answer the tags are
    exactly [[_type]], a list of length one; and a request with the secret
    configured, a valid signature and a non-empty [_type] that is no name
    inherited from [Object.prototype] gets such an answer. *)
Theorem tags_of_a_200_answer_are_the_type_alone :
  (size documentTypeToTags = 8 /\ length known_types = 8)
  /\ (forall k, is_Some (documentTypeToTags !! k) <-> k ∈ known_types)
  /\ (forall k v, documentTypeToTags !! k = Some v -> v = [k])
  /\ (forall t r, t ∉ object_prototype_names ->
        revalidate_tags t r = (revalidateTag t ;; push_tag t) r)
  /\ (forall req, status (POST req).1 = 200 ->
        exists t, request_type req = Some t
                  /\ response_tags (POST req).1 = [t]
                  /\ length (response_tags (POST req).1) = 1)
  /\ (forall req t,
        secret_configured req = true -> signature_valid req = true ->
        request_type req = Some t -> t <> "" -> t ∉ object_prototype_names ->
        status (POST req).1 = 200 /\ response_tags (POST req).1 = [t]).
Proof.
  split; [split; vm_compute; reflexivity|].
  split.
  { intros k. split.
    - intros [v Hv]. by apply tags_lookup_Some in Hv as [? _].
    - intros Hk. rewrite (tags_lookup_known _ Hk). by eexists. }
  split; [intros k v Hv; by apply tags_lookup_Some in Hv as [_ ?]|].
  split; [intros t r Hp; by rewrite revalidate_tags_returns|].
  split.
  - intros req H200.
    destruct (POST_cases req)
      as [Hs E | err Hs Ep E | p Hs Ep Hv E | Hs Hv Ht E | t Hs Hv Ht Hp E | t Hs Hv Ht Hne Hp E];
      rewrite E in H200 |- *; cbn in H200; try discriminate.
    exists t. cbn. auto.
  - intros req t Hs Hv Ht Hne Hp. by rewrite (POST_accepted req t Hs Hv Ht Hne Hp).
Qed.

Lemma tags_of_a_200_answer_witness :
  exists t,
    request_type (webhook "whsec" {| _type := Some "popupContent"; _id := None;
                                     slug := None |} 9) = Some t
    /\ response_tags (POST (webhook "whsec" {| _type := Some "popupContent"; _id := None;
                                               slug := None |} 9)).1 = [t]
    /\ length (response_tags (POST (webhook "whsec" {| _type := Some "popupContent";
                                                       _id := None; slug := None |} 9)).1) = 1.
Proof.
  apply (proj1 (proj2 (proj2 (proj2 (proj2 tags_of_a_200_answer_are_the_type_alone))))
           (webhook "whsec" {| _type := Some "popupContent"; _id := None; slug := None |} 9)).
  vm_compute. reflexivity.
Defined.

End Revalidate.

(** ** sanity/lib/image.ts *)
Module Image.
Import Js.

(** [s.split(sep)] for a one-character separator: the pieces of [s] between
    the separators, never an empty array. [split_ne] gives the first piece and
    the others. *)
Fixpoint split_ne (sep : ascii) (s : string) : string * list string :=
  match s with
  | EmptyString => ("", [])
  | String a rest =>
      let (piece, pieces) := split_ne sep rest in
      if Ascii.eqb a sep then ("", piece :: pieces) else (String a piece, pieces)
  end.

Definition split (sep : ascii) (s : string) : list string :=
  let (piece, pieces) := split_ne sep s in piece :: pieces.

(** Decimal numerals: a non-empty string of digits, and the natural number it
    denotes. *)
Definition is_digit (a : ascii) : bool :=
  (48 <=? N_of_ascii a)%N && (N_of_ascii a <=? 57)%N.

Fixpoint all_digits (s : string) : bool :=
  match s with
  | EmptyString => true
  | String a rest => is_digit a && all_digits rest
  end.

Definition is_decimal (s : string) : bool :=
  truthy_string s && all_digits s.

Fixpoint decimal_value_from (acc : N) (s : string) : N :=
  match s with
  | EmptyString => acc
  | String a rest => decimal_value_from (10 * acc + (N_of_ascii a - 48))%N rest
  end.

Definition decimal_value (s : string) : N := decimal_value_from 0 s.

(** The numbers of JavaScript, as far as [getImageDimensions] uses them:
    [Number(s)], the value of a decimal literal, truthiness and division.
    [Number] reads a decimal numeral as the number it denotes, and such a
    number is truthy exactly when it is not zero; what [Number] makes of any
    other string is left to the instance. *)
Class JsNumber : Type := {
  number : Type;
  Number : string -> number;
  of_N : N -> number;
  truthy : number -> bool;
  divide : number -> number -> number;
  Number_decimal : forall s, is_decimal s = true -> Number s = of_N (decimal_value s);
  truthy_of_N : forall n, truthy (of_N n) = negb (N.eqb n 0)
}.

Record Asset : Type := { _ref : option string }.

(** [SanityImageSource & { asset?: { _ref?: string } }]; the function guards
    against a missing image with [image?.]. *)
Record ImageSource : Type := { asset : option Asset }.

Record Dimensions `{JsNumber} : Type := {
  width : number;
  height : number;
  aspectRatio : number
}.

Definition asset_ref (image : option ImageSource) : option string :=
  match image with
  | Some img =>
      match asset img with
      | Some a => _ref a
      | None => None
      end
  | None => None
  end.

Section GetImageDimensions.
Context `{J : JsNumber}.

Definition fallback : Dimensions :=
  {| width := of_N 0; height := of_N 0; aspectRatio := of_N 1 |}.

(** [x || 0] for a number that may be [undefined]. *)
Definition or_zero (x : option number) : number :=
  match x with
  | Some v => if truthy v then v else of_N 0
  | None => of_N 0
  end.

Definition getImageDimensions (image : option ImageSource) : Dimensions :=
  match asset_ref image with
  | None => fallback
  | Some ref =>
      if negb (truthy_string ref) then fallback
      else
        match split "-" ref !! 2%nat with
        | None => fallback
        | Some dimensions =>
            if negb (truthy_string dimensions) then fallback
            else
              let (first, others) := split_ne "x" dimensions in
              let width := Number first in
              let height := Number <$> head others in
              {| width := or_zero (Some width);
                 height := or_zero height;
                 aspectRatio :=
                   match height with
                   | Some h => if truthy h then divide width h else of_N 1
                   | None => of_N 1
                   end |}
        end
  end.

End GetImageDimensions.

(** The token [image-{id}-{W}x{H}-{ext}] and the image that refers to it. *)
Definition token (id W H ext : string) : string :=
  "image-" ++ id ++ "-" ++ W ++ "x" ++ H ++ "-" ++ ext.

Definition image_of (ref : string) : option ImageSource :=
  Some {| asset := Some {| _ref := Some ref |} |}.

Fixpoint free_of (sep : ascii) (s : string) : bool :=
  match s with
  | EmptyString => true
  | String a rest => negb (Ascii.eqb a sep) && free_of sep rest
  end.

(** The shape the specification calls well formed, as a recogniser: the
    segments between dashes are [image], an id, [{W}x{H}] with decimal [W] and
    [H], [H] not zero, and an extension. *)
Definition well_formed_token (ref : string) : bool :=
  match split "-" ref with
  | "image" :: _ :: dimensions :: _ :: _ =>
      match split "x" dimensions with
      | [W; H] => is_decimal W && is_decimal H && negb (N.eqb (decimal_value H) 0)
      | _ => false
      end
  | _ => false
  end.

(** A reference instance: the non-negative rationals in lowest terms, with
    infinity and NaN. It reads decimal numerals and the empty string (which
    [Number] reads as 0) and sends every other string to NaN. *)
Inductive exact : Type :=
  | NaN
  | Infinity
  | Ratio (numerator : N) (denominator : positive).

Definition ratio (n : N) (d : positive) : exact :=
  let g := N.gcd n (Npos d) in
  match (Npos d / g)%N with
  | Npos d' => Ratio (n / g) d'
  | N0 => NaN
  end.

Definition exact_divide (x y : exact) : exact :=
  match x, y with
  | NaN, _ | _, NaN => NaN
  | Infinity, Infinity => NaN
  | Infinity, Ratio _ _ => Infinity
  | Ratio _ _, Infinity => Ratio 0 1
  | Ratio a b, Ratio c d =>
      match c, a with
      | N0, N0 => NaN
      | N0, _ => Infinity
      | Npos c', _ => ratio (a * Npos d) (b * c')
      end
  end.

Definition exact_truthy (x : exact) : bool :=
  match x with
  | NaN => false
  | Infinity => true
  | Ratio n _ => negb (N.eqb n 0)
  end.

Definition exact_Number (s : string) : exact :=
  if is_decimal s then Ratio (decimal_value s) 1
  else if String.eqb s "" then Ratio 0 1
  else NaN.

Lemma exact_Number_decimal (s : string) :
  is_decimal s = true -> exact_Number s = Ratio (decimal_value s) 1.
Proof. intros H. unfold exact_Number. by rewrite H. Qed.

#[export] Instance exact_numbers : JsNumber := {|
  number := exact;
  Number := exact_Number;
  of_N := fun n => Ratio n 1;
  truthy := exact_truthy;
  divide := exact_divide;
  Number_decimal := exact_Number_decimal;
  truthy_of_N := fun n => eq_refl
|}.

Example dimensions_of_a_token :
  getImageDimensions (image_of "image-Tb9Ew8CXIwaY6R1kjMvI0uRR-2000x3000-jpg")
  = {| width := Ratio 2000 1; height := Ratio 3000 1; aspectRatio := Ratio 2 3 |}.
Proof. vm_compute. reflexivity. Qed.

(** *** Splitting *)

Lemma append_nil_l (s : string) : "" ++ s = s.
Proof. reflexivity. Qed.

Lemma append_cons (x : ascii) (a s : string) : String x a ++ s = String x (a ++ s).
Proof. reflexivity. Qed.

Lemma append_assoc (a b c : string) : (a ++ b) ++ c = a ++ b ++ c.
Proof.
  induction a as [|x a IH]; [reflexivity|].
  by rewrite !append_cons, IH.
Qed.

Lemma split_ne_free (sep : ascii) (s : string) :
  free_of sep s = true -> split_ne sep s = (s, []).
Proof.
  induction s as [|a s IH]; cbn [split_ne free_of]; [reflexivity|].
  intros [Ha Hs]%andb_prop. rewrite (IH Hs).
  apply negb_true_iff in Ha. by rewrite Ha.
Qed.

Lemma split_ne_app (sep : ascii) (a b : string) :
  free_of sep a = true -> split_ne sep (a ++ String sep b) = (a, split sep b).
Proof.
  unfold split. induction a as [|x a IH]; cbn [free_of].
  - intros _. rewrite append_nil_l. cbn [split_ne].
    destruct (split_ne sep b). by rewrite Ascii.eqb_refl.
  - intros [Hx Ha]%andb_prop. rewrite append_cons. cbn [split_ne]. rewrite (IH Ha).
    apply negb_true_iff in Hx. by rewrite Hx.
Qed.

Lemma split_app (sep : ascii) (a b : string) :
  free_of sep a = true -> split sep (a ++ String sep b) = a :: split sep b.
Proof. intros Ha. unfold split at 1. by rewrite (split_ne_app _ _ _ Ha). Qed.

Lemma split_free (sep : ascii) (s : string) :
  free_of sep s = true -> split sep s = [s].
Proof. intros Hs. unfold split. by rewrite (split_ne_free _ _ Hs). Qed.

Lemma free_of_app (sep : ascii) (a b : string) :
  free_of sep a = true -> free_of sep b = true -> free_of sep (a ++ b) = true.
Proof.
  intros Ha Hb. induction a as [|x a IH]; [done|].
  rewrite append_cons. cbn [free_of] in *.
  apply andb_prop in Ha as [Hx Ha]. by rewrite Hx, (IH Ha).
Qed.

Lemma digits_free_of (sep : ascii) (s : string) :
  is_digit sep = false -> all_digits s = true -> free_of sep s = true.
Proof.
  intros Hsep. induction s as [|a s IH]; cbn [free_of all_digits]; [done|].
  intros [Ha Hs]%andb_prop. rewrite (IH Hs), andb_true_r.
  apply negb_true_iff. destruct (Ascii.eqb_spec a sep) as [-> | _]; congruence.
Qed.

Lemma decimal_free_of (sep : ascii) (s : string) :
  is_digit sep = false -> is_decimal s = true -> free_of sep s = true.
Proof.
  intros Hsep [_ Hs]%andb_prop. by apply digits_free_of.
Qed.

Lemma truthy_string_app (a b : string) :
  truthy_string a = true -> truthy_string (a ++ b) = true.
Proof. destruct a; [discriminate | reflexivity]. Qed.

(** The segments of a token: the id is the second, the dimensions the third. *)
Lemma split_token (id W H ext : string) :
  free_of "-" id = true -> is_decimal W = true -> is_decimal H = true ->
  split "-" (token id W H ext) = "image" :: id :: (W ++ "x" ++ H) :: split "-" ext.
Proof.
  intros Hid HW HH. unfold token.
  change ("image-" ++ id ++ "-" ++ W ++ "x" ++ H ++ "-" ++ ext)
    with ("image" ++ String "-" (id ++ String "-" (W ++ "x" ++ H ++ String "-" ext))).
  rewrite split_app by reflexivity.
  rewrite split_app by assumption.
  replace (W ++ "x" ++ H ++ String "-" ext) with ((W ++ "x" ++ H) ++ String "-" ext).
  2:{ rewrite append_assoc. reflexivity. }
  rewrite split_app; [reflexivity|].
  apply free_of_app; [by apply decimal_free_of|].
  rewrite append_cons, append_nil_l. cbn [free_of]. by rewrite decimal_free_of.
Qed.

Lemma split_dimensions (W H : string) :
  is_decimal W = true -> is_decimal H = true ->
  split_ne "x" (W ++ "x" ++ H) = (W, [H]).
Proof.
  intros HW HH.
  change (W ++ "x" ++ H) with (W ++ String "x" H).
  rewrite split_ne_app by (by apply decimal_free_of).
  by rewrite split_free by (by apply decimal_free_of).
Qed.

Lemma token_is_well_formed (id W H ext : string) :
  free_of "-" id = true -> is_decimal W = true -> is_decimal H = true ->
  decimal_value H <> 0%N ->
  well_formed_token (token id W H ext) = true.
Proof.
  intros Hid HW HH Hh. unfold well_formed_token.
  rewrite (split_token _ _ _ _ Hid HW HH).
  unfold split at 1. destruct (split_ne "-" ext) as [e es].
  unfold split. rewrite (split_dimensions _ _ HW HH), HW, HH.
  apply N.eqb_neq in Hh. by rewrite Hh.
Qed.

(** *** The dimensions of a token *)

Section Dimensions.
Context `{J : JsNumber}.

Lemma or_zero_of_N (n : N) : or_zero (Some (of_N n)) = of_N n.
Proof.
  unfold or_zero. rewrite truthy_of_N.
  destruct (N.eqb_spec n 0) as [-> | _]; reflexivity.
Qed.

Lemma dimensions_of_token (id W H ext : string) :
  free_of "-" id = true -> is_decimal W = true -> is_decimal H = true ->
  decimal_value H <> 0%N ->
  getImageDimensions (image_of (token id W H ext))
  = {| width := of_N (decimal_value W);
       height := of_N (decimal_value H);
       aspectRatio := divide (of_N (decimal_value W)) (of_N (decimal_value H)) |}.
Proof.
  intros Hid HW HH Hh. unfold getImageDimensions, image_of, asset_ref.
  cbn [asset _ref].
  replace (truthy_string (token id W H ext)) with true by reflexivity.
  cbn [negb]. rewrite (split_token _ _ _ _ Hid HW HH).
  cbn [lookup list_lookup].
  rewrite truthy_string_app by (by apply andb_prop in HW as [? _]).
  cbn [negb]. rewrite (split_dimensions _ _ HW HH).
  cbn [head fmap option_fmap option_map].
  rewrite (Number_decimal _ HW), (Number_decimal _ HH), !or_zero_of_N, truthy_of_N.
  apply N.eqb_neq in Hh. by rewrite Hh.
Qed.

Lemma dimensions_fall_back (image : option ImageSource) :
  asset_ref image = None
  \/ asset_ref image = Some ""
  \/ (exists ref, asset_ref image = Some ref
                  /\ (split "-" ref !! 2%nat = None \/ split "-" ref !! 2%nat = Some "")) ->
  getImageDimensions image = fallback.
Proof.
  unfold getImageDimensions.
  intros [-> | [-> | (ref & -> & [-> | ->])]]; try reflexivity;
    by destruct (negb (truthy_string ref)).
Qed.

Lemma dimensions_field_by_field
    (image : option ImageSource) (ref dimensions first : string) (others : list string) :
  asset_ref image = Some ref -> ref <> "" ->
  split "-" ref !! 2%nat = Some dimensions -> dimensions <> "" ->
  split_ne "x" dimensions = (first, others) ->
  width (getImageDimensions image)
  = (if truthy (Number first) then Number first else of_N 0)
  /\ match head others with
     | Some second =>
         if truthy (Number second)
         then height (getImageDimensions image) = Number second
              /\ aspectRatio (getImageDimensions image)
                 = divide (Number first) (Number second)
         else height (getImageDimensions image) = of_N 0
              /\ aspectRatio (getImageDimensions image) = of_N 1
     | None =>
         height (getImageDimensions image) = of_N 0
         /\ aspectRatio (getImageDimensions image) = of_N 1
     end.
Proof.
  intros Href Hne Hdim Hdne Hsplit. unfold getImageDimensions.
  rewrite Href, (proj2 (truthy_string_spec ref) Hne). cbn [negb].
  rewrite Hdim, (proj2 (truthy_string_spec dimensions) Hdne). cbn [negb].
  rewrite Hsplit. cbn [width height aspectRatio or_zero].
  split; [reflexivity|].
  destruct (head others) as [second|]; cbn [fmap option_fmap option_map or_zero]; [|done].
  by destruct (truthy (Number second)).
Qed.

End Dimensions.

(** The token [image-abc-800-jpg] is malformed (its third segment has no
    [x]), and its width is kept: the answer is [{width: 800, height: 0,
    aspectRatio: 1}], not the all-default one. *)
Lemma malformed_token_keeps_its_width :
  well_formed_token "image-abc-800-jpg" = false
  /\ getImageDimensions (image_of "image-abc-800-jpg")
     = {| width := Ratio 800 1; height := Ratio 0 1; aspectRatio := Ratio 1 1 |}
  /\ getImageDimensions (image_of "image-abc-800-jpg") <> fallback.
Proof.
  split; [reflexivity|]. split; [reflexivity|]. discriminate.
Qed.

(** C5, amended. For a token [image-{id}-{W}x{H}-{ext}] with an id free of
    dashes, decimal [W] and [H] and [H] not zero, the result is [{width: W,
    height: H, aspectRatio: W/H}]. For a missing asset reference, an empty one,
    and a token with fewer than three segments between dashes or an empty third
    segment, it is exactly [{width: 0, height: 0, aspectRatio: 1}]. For every
    other token the function still returns, and the fields fall back one by
    one: the width is 0 when the part before the first [x] is no non-zero
    number; the height is 0 and the aspect ratio 1 when the part after it is
    missing or no non-zero number. *)
Theorem image_dimensions_by_token_shape `{J : JsNumber} :
  (forall id W H ext,
      free_of "-" id = true -> is_decimal W = true -> is_decimal H = true ->
      decimal_value H <> 0%N ->
      well_formed_token (token id W H ext) = true
      /\ getImageDimensions (image_of (token id W H ext))
         = {| width := of_N (decimal_value W);
              height := of_N (decimal_value H);
              aspectRatio := divide (of_N (decimal_value W)) (of_N (decimal_value H)) |})
  /\ (forall image,
        asset_ref image = None
        \/ asset_ref image = Some ""
        \/ (exists ref, asset_ref image = Some ref
                        /\ (split "-" ref !! 2%nat = None
                            \/ split "-" ref !! 2%nat = Some "")) ->
        getImageDimensions image = fallback)
  /\ (forall image ref dimensions first others,
        asset_ref image = Some ref -> ref <> "" ->
        split "-" ref !! 2%nat = Some dimensions -> dimensions <> "" ->
        split_ne "x" dimensions = (first, others) ->
        width (getImageDimensions image)
        = (if truthy (Number first) then Number first else of_N 0)
        /\ match head others with
           | Some second =>
               if truthy (Number second)
               then height (getImageDimensions image) = Number second
                    /\ aspectRatio (getImageDimensions image)
                       = divide (Number first) (Number second)
               else height (getImageDimensions image) = of_N 0
                    /\ aspectRatio (getImageDimensions image) = of_N 1
           | None =>
               height (getImageDimensions image) = of_N 0
               /\ aspectRatio (getImageDimensions image) = of_N 1
           end).
Proof.
  split; [|split].
  - intros id W H ext Hid HW HH Hh. split.
    + by apply token_is_well_formed.
    + by apply dimensions_of_token.
  - apply dimensions_fall_back.
  - apply dimensions_field_by_field.
Qed.

Lemma image_dimensions_witness :
  well_formed_token (token "Tb9Ew8CXIwaY6R1kjMvI0uRR" "2000" "1000" "jpg") = true
  /\ getImageDimensions (image_of (token "Tb9Ew8CXIwaY6R1kjMvI0uRR" "2000" "1000" "jpg"))
     = {| width := Ratio 2000 1; height := Ratio 1000 1;
          aspectRatio := exact_divide (Ratio 2000 1) (Ratio 1000 1) |}.
Proof.
  apply (proj1 (@image_dimensions_by_token_shape exact_numbers)
           "Tb9Ew8CXIwaY6R1kjMvI0uRR" "2000" "1000" "jpg");
    [reflexivity | reflexivity | reflexivity | discriminate].
Defined.

End Image.

(** ** sanity/lib/client.ts *)
Module Client.

(** [revalidate?: number | false]. *)
Inductive Freshness : Type :=
  | Seconds (n : Z)
  | Never.

Record NextOptions : Type := {
  next_revalidate : Freshness;
  next_tags : list string
}.

Section SanityFetch.
(** [T]: the result type of the query; [V]: the values of query parameters;
    [E]: what a rejected promise carries; [S]: the state of the CMS client and
    of everything behind it. *)
Context {T V E S : Type}.

(** One call [client.fetch(query, params, { next })]. *)
Record FetchCall : Type := {
  call_query : string;
  call_params : gmap string V;
  call_next : NextOptions
}.

(** A settled promise. *)
Inductive Settled (A : Type) : Type :=
  | Resolved (a : A)
  | Rejected (e : E).
Arguments Resolved {A} a.
Arguments Rejected {A} e.

(** An asynchronous computation over the client: it settles, or it awaits
    [client.fetch] and goes on with the outcome. *)
Inductive Async (A : Type) : Type :=
  | Settle (r : Settled A)
  | Await (c : FetchCall) (k : Settled T -> Async A).
Arguments Settle {A} r.
Arguments Await {A} c k.

(** The client answers a call from its state and moves to a new state. *)
Definition ClientModel : Type := FetchCall -> S -> Settled T * S.

(** Running a computation against a client: the settled promise, the client's
    last state, and the calls made, in order. *)
Fixpoint run {A} (client : ClientModel) (p : Async A) (s : S)
    : Settled A * S * list FetchCall :=
  match p with
  | Settle r => (r, s, [])
  | Await c k =>
      let (answer, s') := client c s in
      let '(r, s'', cs) := run client (k answer) s' in
      (r, s'', c :: cs)
  end.

(** The argument object of [sanityFetch]; every field but [query] may be
    left out. *)
Record FetchArgs : Type := {
  query : string;
  params : option (gmap string V);
  revalidate : option Freshness;
  tags : option (list string)
}.

(** [return client.fetch<T>(query, params, { next: { revalidate, tags } })]
    with the defaults [params = {}], [revalidate = 60], [tags = []]. *)
Definition fetch_call (args : FetchArgs) : FetchCall :=
  {| call_query := query args;
     call_params := default ∅ (params args);
     call_next := {| next_revalidate := default (Seconds 60) (revalidate args);
                     next_tags := default [] (tags args) |} |}.

Definition sanityFetch (args : FetchArgs) : Async T :=
  Await (fetch_call args) (fun answer => Settle answer).

(** C7. [sanityFetch] makes one call to the client, with exactly the query
    and the parameters it was given, the tags it was given and the freshness
    window it was given or 60 when none was; the promise it returns settles as
    the client's does, resolved with the same value or rejected with the same
    error, and the client is not called again in either case. *)
Theorem sanityFetch_is_one_client_call
    (client : ClientModel) (s : S)
    (q : string) (p : gmap string V) (fresh : option Freshness) (tg : list string) :
  let args := {| query := q; params := Some p; revalidate := fresh; tags := Some tg |} in
  let call := {| call_query := q; call_params := p;
                 call_next := {| next_revalidate :=
                                   match fresh with
                                   | Some f => f
                                   | None => Seconds 60
                                   end;
                                 next_tags := tg |} |} in
  run client (sanityFetch args) s = (client call s, [call])
  /\ (forall v s', client call s = (Resolved v, s') ->
        run client (sanityFetch args) s = (Resolved v, s', [call]))
  /\ (forall e s', client call s = (Rejected e, s') ->
        run client (sanityFetch args) s = (Rejected e, s', [call])).
Proof.
  intros args call.
  assert (Hcall : fetch_call args = call) by (subst args call; by destruct fresh).
  assert (Hrun : run client (sanityFetch args) s = (client call s, [call])).
  { unfold sanityFetch. cbn [run]. rewrite Hcall. by destruct (client call s). }
  split; [exact Hrun|].
  split; intros x s' Hx; by rewrite Hrun, Hx.
Qed.

(** With only the query given, the call carries no parameters, no tags and
    the 60 second window. *)
Lemma sanityFetch_defaults (q : string) :
  fetch_call {| query := q; params := None; revalidate := None; tags := None |}
  = {| call_query := q; call_params := ∅;
       call_next := {| next_revalidate := Seconds 60; next_tags := [] |} |}.
Proof. reflexivity. Qed.

End SanityFetch.

Arguments Resolved {E A} a.
Arguments Rejected {E A} e.
Arguments Settle {T V E A} r.
Arguments Await {T V E A} c k.

(** A client that is down: every call is rejected, and counted. *)
Definition failing_client : @ClientModel string string string nat :=
  fun _ n => (Rejected "network error", S n).

Lemma sanityFetch_witness :
  run failing_client
    (sanityFetch {| query := "homepageQuery"; params := Some ∅;
                    revalidate := None; tags := Some ["homepage"] |}) 0
  = (Rejected "network error", 1,
     [ {| call_query := "homepageQuery"; call_params := ∅;
          call_next := {| next_revalidate := Seconds 60;
                          next_tags := ["homepage"] |} |} ]).
Proof.
  apply (proj2 (proj2 (sanityFetch_is_one_client_call
                         failing_client 0 "homepageQuery" ∅ None ["homepage"]))).
  reflexivity.
Defined.

End Client.

(** ** sanity/lib/queries.ts *)
Module Queries.

Inductive Direction : Type := Asc | Desc.

(** A relation read in a direction: as it is, or flipped. *)
Definition directed {K} (R : relation K) (dir : Direction) : relation K :=
  match dir with
  | Asc => R
  | Desc => flip R
  end.

(** What the queries take from the engine that evaluates them. Dates are
    stored as strings, which GROQ compares in lexicographic order; a missing
    field is [null]. [order(key dir)] returns the items it is given, sorted by
    the key; where [null] keys go and how ties are broken is the engine's
    business. [imageProjection] stands for the projection of that name, which
    follows the asset reference of a stored image. *)
Class GroqEngine : Type := {
  Image : Type;
  QueryImage : Type;
  imageProjection : Image -> QueryImage;
  sorts_before : relation (option string);
  sorts_before_trans : Transitive sorts_before;
  sorts_before_strings :
    forall a b, sorts_before (Some a) (Some b) <-> String.leb a b = true;
  order : forall {A : Type}, (A -> option string) -> Direction -> list A -> list A;
  order_Permutation :
    forall (A : Type) (key : A -> option string) dir (l : list A),
      order key dir l ≡ₚ l;
  order_Sorted :
    forall (A : Type) (key : A -> option string) dir (l : list A),
      Sorted (fun a b => directed sorts_before dir (key a) (key b)) (order key dir l)
}.

Section Documents.
Context `{G : GroqEngine}.

(** The fields of a stored document that the two queries read. *)
Record Document : Type := {
  _id : string;
  _type : string;
  title : option string;
  slug_current : option string;
  excerpt : option string;
  publishedAt : option string;
  date : option string;
  coverImage : option Image;
  tags : option (list string)
}.

(** [BlogPostListItem]: the projection of [blogPostsQuery]. *)
Record BlogPostListItem : Type := {
  post_id : string;
  post_title : option string;
  post_slug : option string;
  post_excerpt : option string;
  post_publishedAt : option string;
  post_coverImage : option QueryImage;
  post_tags : option (list string)
}.

Definition post_projection (d : Document) : BlogPostListItem :=
  {| post_id := _id d;
     post_title := title d;
     post_slug := slug_current d;
     post_excerpt := excerpt d;
     post_publishedAt := publishedAt d;
     post_coverImage := imageProjection <$> coverImage d;
     post_tags := tags d |}.

(** The projection of both branches of [adjacentProjectsQuery]. *)
Record ProjectLink : Type := {
  link_id : string;
  link_title : option string;
  link_slug : option string;
  link_coverImage : option QueryImage
}.

Definition link_projection (d : Document) : ProjectLink :=
  {| link_id := _id d;
     link_title := title d;
     link_slug := slug_current d;
     link_coverImage := imageProjection <$> coverImage d |}.

Record AdjacentProjectsResult : Type := {
  previous : option ProjectLink;
  next : option ProjectLink
}.

(** [_type == t]. *)
Definition has_type (t : string) (d : Document) : bool := String.eqb (_type d) t.

(** [date > $date] and [date < $date]: a comparison with [null] is [null],
    and the filter drops the document. *)
Definition date_after (ref : string) (d : Document) : bool :=
  match date d with
  | Some x => String.ltb ref x
  | None => false
  end.

Definition date_before (ref : string) (d : Document) : bool :=
  match date d with
  | Some x => String.ltb x ref
  | None => false
  end.

(** [slug.current != $slug]. *)
Definition slug_differs (s : string) (d : Document) : bool :=
  match slug_current d with
  | Some x => negb (String.eqb x s)
  | None => true
  end.

(** [l[start...end]]. *)
Definition slice {A} (start end_ : nat) (l : list A) : list A :=
  take (end_ - start) (drop start l).

(** [*[_type == "blogPost"] | order(publishedAt desc)]: the whole listing. *)
Definition blog_listing (dataset : list Document) : list Document :=
  order publishedAt Desc (List.filter (has_type "blogPost") dataset).

(** [*[_type == "blogPost"] | order(publishedAt desc)[$start...$end] {...}] *)
Definition blogPostsQuery (dataset : list Document) (start end_ : nat)
    : list BlogPostListItem :=
  post_projection <$> slice start end_ (blog_listing dataset).

(** The companion count query: the number of documents of type "blogPost". *)
Definition blogPostCountQuery (dataset : list Document) : nat :=
  length (List.filter (has_type "blogPost") dataset).

(** The two branches of [adjacentProjectsQuery], before [[0]] and the
    projection. *)
Definition later_projects (dataset : list Document) (ref : string) : list Document :=
  order date Asc
    (List.filter (fun d => has_type "project" d && date_after ref d) dataset).

Definition earlier_projects (dataset : list Document) (ref slug : string) : list Document :=
  order date Desc
    (List.filter
       (fun d => has_type "project" d && date_before ref d && slug_differs slug d)
       dataset).

Definition adjacentProjectsQuery (dataset : list Document) (ref slug : string)
    : AdjacentProjectsResult :=
  {| previous := link_projection <$> head (later_projects dataset ref);
     next := link_projection <$> head (earlier_projects dataset ref slug) |}.

(** Latest first, in the engine's order of keys. *)
Definition descending (a b : BlogPostListItem) : Prop :=
  sorts_before (post_publishedAt b) (post_publishedAt a).

(** The data model's invariant: a slug names one document of its type. *)
Definition unique_project_slugs (dataset : list Document) : Prop :=
  forall a b s,
    a ∈ dataset -> b ∈ dataset -> _type a = "project" -> _type b = "project" ->
    slug_current a = Some s -> slug_current b = Some s -> a = b.

Definition is_project_at (dataset : list Document) (ref slug : string) : Prop :=
  exists p, p ∈ dataset /\ _type p = "project"
            /\ slug_current p = Some slug /\ date p = Some ref.

End Documents.

(** *** Lexicographic order of strings *)

Lemma ltb_irrefl (a : string) : String.ltb a a = false.
Proof.
  unfold String.ltb. pose proof (proj2 (String_as_OT.cmp_eq a a) eq_refl) as H.
  unfold String_as_OT.cmp in H. by rewrite H.
Qed.

Lemma leb_refl (a : string) : String.leb a a = true.
Proof.
  unfold String.leb. pose proof (proj2 (String_as_OT.cmp_eq a a) eq_refl) as H.
  unfold String_as_OT.cmp in H. by rewrite H.
Qed.

Lemma leb_trans (a b c : string) :
  String.leb a b = true -> String.leb b c = true -> String.leb a c = true.
Proof.
  unfold String.leb.
  destruct (String.compare a b) eqn:Hab; [| |discriminate];
    destruct (String.compare b c) eqn:Hbc; try discriminate; intros _ _.
  - apply String.compare_eq_iff in Hab as ->. by rewrite Hbc.
  - apply String.compare_eq_iff in Hab as ->. by rewrite Hbc.
  - apply String.compare_eq_iff in Hbc as <-. by rewrite Hab.
  - apply String_as_OT.cmp_lt in Hab, Hbc.
    pose proof (String_as_OT.lt_trans _ _ _ Hab Hbc) as Hac.
    apply String_as_OT.cmp_lt in Hac. unfold String_as_OT.cmp in Hac. by rewrite Hac.
Qed.

(** *** Sorted lists *)

Lemma Sorted_drop {A} (R : relation A) (n : nat) (l : list A) :
  Sorted R l -> Sorted R (drop n l).
Proof.
  revert l. induction n as [|n IH]; intros l Hl; [by rewrite drop_0|].
  destruct l as [|x l]; [done|]. cbn. apply IH. by apply Sorted_inv in Hl as [? _].
Qed.

Lemma Sorted_take {A} (R : relation A) (n : nat) (l : list A) :
  Sorted R l -> Sorted R (take n l).
Proof.
  revert n. induction l as [|x l IH]; intros n Hl; [by destruct n|].
  destruct n as [|n]; [constructor|]. cbn.
  apply Sorted_inv in Hl as [Hl Hx]. constructor; [by apply IH|].
  destruct l as [|y l]; [by destruct n; constructor|].
  destruct n; [constructor|]. cbn. constructor. by apply HdRel_inv in Hx.
Qed.

Section Properties.
Context `{G : GroqEngine}.

Lemma elem_of_order {A} (key : A -> option string) dir (l : list A) (x : A) :
  x ∈ order key dir l <-> x ∈ l.
Proof. by rewrite (order_Permutation A key dir l). Qed.

Lemma directed_trans dir : Transitive (directed sorts_before dir).
Proof.
  pose proof sorts_before_trans as Ht.
  destruct dir; cbn; [exact Ht|]. intros x y z Hxy Hyz. unfold flip in *. by etrans.
Qed.

(** The first item of an ordered list comes no later than any other. *)
Lemma head_order {A} (key : A -> option string) dir (l : list A) (x : A) :
  head (order key dir l) = Some x ->
  x ∈ l /\ forall y, y ∈ l -> y = x \/ directed sorts_before dir (key x) (key y).
Proof.
  intros Hhead. apply head_Some in Hhead as [rest Hrest].
  split; [apply (elem_of_order key dir); rewrite Hrest; by left|].
  intros y Hy. apply (elem_of_order key dir) in Hy. rewrite Hrest in Hy.
  pose proof (order_Sorted A key dir l) as Hs. rewrite Hrest in Hs.
  apply (@Sorted_StronglySorted _ _ ) in Hs.
  2:{ intros a b c. apply directed_trans. }
  apply StronglySorted_inv in Hs as [_ Hall].
  apply elem_of_cons in Hy as [-> | Hy]; [by left|].
  right. rewrite Forall_forall in Hall. by apply Hall.
Qed.

Lemma head_order_None {A} (key : A -> option string) dir (l : list A) :
  head (order key dir l) = None <-> l = [].
Proof.
  rewrite head_None. split.
  - intros H. pose proof (order_Permutation A key dir l) as Hp. rewrite H in Hp.
    symmetry. by apply Permutation_nil_l.
  - intros ->. pose proof (order_Permutation A key dir []) as Hp.
    by apply Permutation_nil_r in Hp.
Qed.


Lemma elem_of_List_filter {A} (f : A -> bool) (l : list A) (x : A) :
  x ∈ List.filter f l <-> x ∈ l /\ f x = true.
Proof. rewrite !list_elem_of_In. apply filter_In. Qed.

Lemma StronglySorted_lookup {A} (R : relation A) (l : list A) (i j : nat) (a b : A) :
  StronglySorted R l -> i < j -> l !! i = Some a -> l !! j = Some b -> R a b.
Proof.
  intros Hl. revert i j. induction Hl as [|x l Hl IH Hall]; intros i j Hij Ha Hb; [done|].
  destruct j as [|j]; [lia|]. cbn in Hb.
  destruct i as [|i].
  - cbn in Ha. injection Ha as ->. rewrite Forall_forall in Hall.
    apply Hall. by eapply list_elem_of_lookup_2.
  - cbn in Ha. apply (IH i j); [lia|done..].
Qed.

Lemma blog_listing_length (dataset : list Document) :
  length (blog_listing dataset) = blogPostCountQuery dataset.
Proof.
  unfold blog_listing, blogPostCountQuery. apply Permutation_length, order_Permutation.
Qed.

Lemma blog_page_Sorted (dataset : list Document) (start end_ : nat) :
  Sorted descending (blogPostsQuery dataset start end_).
Proof.
  unfold blogPostsQuery, slice, blog_listing.
  apply (Sorted_fmap _ (fun a b => directed sorts_before Desc (publishedAt a) (publishedAt b))).
  - intros a b Hab. exact Hab.
  - apply Sorted_take, Sorted_drop, order_Sorted.
Qed.

(** C9. For [start < end] the page of [blogPostsQuery] has at most
    [end - start] items, exactly as many as the listing has from index [start]
    on, up to that bound; its item [i] is item [start + i] of the whole listing
    (indices from zero, [end] excluded); it is empty when [start] is at or past
    the number of posts; it is ordered by [publishedAt], latest first; and
    every item is the projection of a blog post of the dataset. The query is a
    total function: no pair of indices makes it fail. *)
Theorem blog_posts_page (dataset : list Document) (start end_ : nat) :
  start < end_ ->
  let page := blogPostsQuery dataset start end_ in
  length page <= end_ - start
  /\ length page = min (end_ - start) (blogPostCountQuery dataset - start)
  /\ (forall i, i < end_ - start ->
        page !! i = post_projection <$> blog_listing dataset !! (start + i))
  /\ (blogPostCountQuery dataset <= start -> page = [])
  /\ Sorted descending page
  /\ (forall i j a b x y,
        i < j -> page !! i = Some a -> page !! j = Some b ->
        post_publishedAt a = Some x -> post_publishedAt b = Some y ->
        String.leb y x = true)
  /\ (forall item, item ∈ page ->
        exists d, d ∈ dataset /\ _type d = "blogPost" /\ item = post_projection d).
Proof.
  intros Hlt page.
  assert (Hlen : length page = min (end_ - start) (blogPostCountQuery dataset - start)).
  { subst page. unfold blogPostsQuery, slice.
    by rewrite length_fmap, length_take, length_drop, blog_listing_length. }
  split; [lia|]. split; [exact Hlen|]. split; [|split; [|split; [|split]]].
  - intros i Hi. subst page. unfold blogPostsQuery, slice.
    by rewrite list_lookup_fmap, lookup_take_lt, lookup_drop.
  - intros Hge. apply length_zero_iff_nil. lia.
  - apply blog_page_Sorted.
  - intros i j a b x y Hij Ha Hb Hx Hy.
    pose proof (blog_page_Sorted dataset start end_) as Hs.
    apply Sorted_StronglySorted in Hs.
    2:{ intros u v w Huv Hvw. unfold descending in *.
        by apply (sorts_before_trans _ (post_publishedAt v)). }
    pose proof (StronglySorted_lookup _ _ _ _ _ _ Hs Hij Ha Hb) as Hab.
    unfold descending in Hab. rewrite Hx, Hy in Hab. by apply sorts_before_strings.
  - intros item Hitem. subst page. unfold blogPostsQuery, slice in Hitem.
    apply list_elem_of_fmap in Hitem as (d & -> & Hd).
    apply subseteq_take, subseteq_drop in Hd.
    apply elem_of_order, elem_of_List_filter in Hd as [Hd Ht].
    exists d. repeat split; [done|]. by apply String.eqb_eq.
Qed.

Lemma other_date_other_slug (dataset : list Document) (ref slug d : string) (q : Document) :
  unique_project_slugs dataset -> is_project_at dataset ref slug ->
  q ∈ dataset -> _type q = "project" -> date q = Some d -> d <> ref ->
  slug_current q <> Some slug.
Proof.
  intros Huniq (p & Hp & Htp & Hsp & Hdp) Hq Htq Hdq Hne Hsq.
  assert (q = p) as -> by (by apply (Huniq q p slug)).
  congruence.
Qed.

(** C8. In a dataset where a slug names one project (the invariant of the
    data model), and for the date and slug of one of its projects: [previous]
    is a project with the smallest date strictly greater than the reference
    date, [next] one with the largest date strictly less than it, each [null]
    exactly when no project has such a date, and neither is the document of
    the excluded slug. The [next] branch tests the slug; the [previous] branch
    owes this to the strict comparison of dates. *)
Theorem adjacent_projects (dataset : list Document) (ref slug : string) :
  unique_project_slugs dataset -> is_project_at dataset ref slug ->
  let result := adjacentProjectsQuery dataset ref slug in
  match previous result with
  | Some link =>
      exists p d,
        p ∈ dataset /\ link = link_projection p /\ _type p = "project"
        /\ date p = Some d /\ String.ltb ref d = true
        /\ slug_current p <> Some slug
        /\ (forall q d', q ∈ dataset -> _type q = "project" -> date q = Some d' ->
                         String.ltb ref d' = true -> String.leb d d' = true)
  | None =>
      forall q d', q ∈ dataset -> _type q = "project" -> date q = Some d' ->
                   String.ltb ref d' = false
  end
  /\ match next result with
     | Some link =>
         exists p d,
           p ∈ dataset /\ link = link_projection p /\ _type p = "project"
           /\ date p = Some d /\ String.ltb d ref = true
           /\ slug_current p <> Some slug
           /\ (forall q d', q ∈ dataset -> _type q = "project" -> date q = Some d' ->
                            String.ltb d' ref = true -> String.leb d' d = true)
     | None =>
         forall q d', q ∈ dataset -> _type q = "project" -> date q = Some d' ->
                      String.ltb d' ref = false
     end.
Proof.
  intros Huniq Href result.
  assert (Hirr : forall d, String.ltb ref d = true \/ String.ltb d ref = true -> d <> ref).
  { intros d [H | H] ->; by rewrite ltb_irrefl in H. }
  split.
  - subst result. cbn [previous adjacentProjectsQuery].
    destruct (head (later_projects dataset ref)) as [p|] eqn:Hhead; cbn [fmap option_fmap option_map].
    + unfold later_projects in Hhead. apply head_order in Hhead as [Hp Hmin].
      apply elem_of_List_filter in Hp as [Hp [Htp Hdp]%andb_prop].
      apply String.eqb_eq in Htp. unfold date_after in Hdp.
      destruct (date p) as [d|] eqn:Ed; [|discriminate].
      exists p, d. repeat split; try done.
      * eapply other_date_other_slug; eauto.
      * intros q d' Hq Htq Hdq Hlt.
        assert (Hin : q ∈ List.filter
                            (fun d => has_type "project" d && date_after ref d) dataset).
        { apply elem_of_List_filter. split; [done|].
          unfold has_type, date_after. rewrite Htq, Hdq, Hlt. reflexivity. }
        destruct (Hmin q Hin) as [-> | Hle].
        { assert (d' = d) as -> by congruence. apply leb_refl. }
        { cbn in Hle. rewrite Hdq in Hle. by apply sorts_before_strings. }
    + unfold later_projects in Hhead. apply head_order_None in Hhead.
      intros q d' Hq Htq Hdq. destruct (String.ltb ref d') eqn:Hlt; [|done].
      assert (Hin : q ∈ List.filter (fun d => has_type "project" d && date_after ref d) dataset).
      { apply elem_of_List_filter. split; [done|].
        unfold has_type, date_after. rewrite Htq, Hdq, Hlt. reflexivity. }
      rewrite Hhead in Hin. by apply elem_of_nil in Hin.
  - assert (Hpass : forall q d', q ∈ dataset -> _type q = "project" -> date q = Some d' ->
                      String.ltb d' ref = true ->
                      q ∈ List.filter
                            (fun d => has_type "project" d && date_before ref d
                                      && slug_differs slug d) dataset).
    { intros q d' Hq Htq Hdq Hlt. apply elem_of_List_filter. split; [done|].
      unfold has_type, date_before, slug_differs. rewrite Htq, Hdq, Hlt. cbn.
      destruct (slug_current q) as [x|] eqn:Ex; [|done].
      apply negb_true_iff, String.eqb_neq. intros ->.
      eapply (other_date_other_slug dataset ref slug d' q); eauto. }
    subst result. cbn [next adjacentProjectsQuery].
    destruct (head (earlier_projects dataset ref slug)) as [p|] eqn:Hhead; cbn [fmap option_fmap option_map].
    + unfold earlier_projects in Hhead. apply head_order in Hhead as [Hp Hmax].
      apply elem_of_List_filter in Hp as [Hp [[Htp Hdp]%andb_prop Hsp]%andb_prop].
      apply String.eqb_eq in Htp. unfold date_before in Hdp.
      destruct (date p) as [d|] eqn:Ed; [|discriminate].
      exists p, d. repeat split; try done.
      * eapply other_date_other_slug; eauto.
      * intros q d' Hq Htq Hdq Hlt.
        destruct (Hmax q (Hpass q d' Hq Htq Hdq Hlt)) as [-> | Hle].
        { assert (d' = d) as -> by congruence. apply leb_refl. }
        { cbn in Hle. unfold flip in Hle. rewrite Hdq in Hle.
          by apply sorts_before_strings. }
    + unfold earlier_projects in Hhead. apply head_order_None in Hhead.
      intros q d' Hq Htq Hdq. destruct (String.ltb d' ref) eqn:Hlt; [|done].
      pose proof (Hpass q d' Hq Htq Hdq Hlt) as Hin.
      rewrite Hhead in Hin. by apply elem_of_nil in Hin.
Qed.

End Properties.

(** *** A reference engine *)

(** Strings in lexicographic order, [null] after every string. *)
Definition null_lastb (a b : option string) : bool :=
  match a, b with
  | Some x, Some y => String.leb x y
  | _, None => true
  | None, Some _ => false
  end.

Definition null_last (a b : option string) : Prop := null_lastb a b = true.

Lemma null_last_trans : Transitive null_last.
Proof.
  intros [x|] [y|] [z|]; unfold null_last; cbn; try done. apply leb_trans.
Qed.

Lemma null_last_total : Total null_last.
Proof.
  intros [x|] [y|]; unfold null_last; cbn; auto. apply String.leb_total.
Qed.

Definition by_key {A} (key : A -> option string) (dir : Direction) : relation A :=
  fun a b => directed null_last dir (key a) (key b).

#[local] Instance by_key_dec {A} (key : A -> option string) dir :
  RelDecision (by_key key dir).
Proof.
  intros a b. unfold by_key, directed, flip, null_last. destruct dir; apply decide_rel; apply _.
Defined.

Lemma by_key_total {A} (key : A -> option string) dir : Total (by_key key dir).
Proof.
  intros a b. unfold by_key. destruct dir; cbn; unfold flip; apply null_last_total.
Qed.

Definition merge_order {A} (key : A -> option string) (dir : Direction) (l : list A)
    : list A :=
  merge_sort (by_key key dir) l.

Lemma merge_order_Sorted (A : Type) (key : A -> option string) dir (l : list A) :
  Sorted (fun a b => directed null_last dir (key a) (key b)) (merge_order key dir l).
Proof.
  exact (@Sorted_merge_sort A (by_key key dir) _ (by_key_total key dir) l).
Qed.

Lemma merge_order_Permutation (A : Type) (key : A -> option string) dir (l : list A) :
  merge_order key dir l ≡ₚ l.
Proof. apply merge_sort_Permutation. Qed.

#[export] Instance reference_engine : GroqEngine := {|
  Image := string;
  QueryImage := string;
  imageProjection := fun ref => ref;
  sorts_before := null_last;
  sorts_before_trans := null_last_trans;
  sorts_before_strings := fun a b => iff_refl _;
  order := @merge_order;
  order_Permutation := merge_order_Permutation;
  order_Sorted := merge_order_Sorted
|}.

Definition document (type id slug : string) (published day : option string) : Document :=
  {| _id := id; _type := type; title := Some id; slug_current := Some slug;
     excerpt := None; publishedAt := published; date := day;
     coverImage := None; tags := None |}.

Definition sample : list Document :=
  [ document "project" "p1" "vase" None (Some "2024-01-01");
    document "blogPost" "b1" "hello" (Some "2024-03-01T10:00:00Z") None;
    document "project" "p2" "tilted" None (Some "2024-05-01");
    document "blogPost" "b2" "glaze" (Some "2024-04-01T10:00:00Z") None;
    document "project" "p3" "cow" None (Some "2023-07-01");
    document "blogPost" "b3" "draft" None None ].

Example sample_page :
  post_id <$> blogPostsQuery sample 0 2 = ["b3"; "b2"]
  /\ post_id <$> blogPostsQuery sample 2 4 = ["b1"]
  /\ blogPostsQuery sample 5 7 = [].
Proof. split; [|split]; reflexivity. Qed.

Example sample_adjacent :
  link_id <$> previous (adjacentProjectsQuery sample "2024-01-01" "vase") = Some "p2"
  /\ link_id <$> next (adjacentProjectsQuery sample "2024-01-01" "vase") = Some "p3"
  /\ next (adjacentProjectsQuery sample "2023-07-01" "cow") = None.
Proof. split; [|split]; reflexivity. Qed.

Lemma blog_posts_page_witness :
  length (blogPostsQuery sample 1 3) <= 3 - 1.
Proof.
  apply (blog_posts_page sample 1 3). lia.
Defined.

Lemma sample_unique_slugs : unique_project_slugs sample.
Proof.
  intros a b s Ha Hb Hta Htb Hsa Hsb. unfold sample in Ha, Hb.
  repeat (apply elem_of_cons in Ha as [-> | Ha]);
    try (by apply elem_of_nil in Ha); try discriminate;
    repeat (apply elem_of_cons in Hb as [-> | Hb]);
    try (by apply elem_of_nil in Hb); try discriminate;
    try reflexivity; cbn in Hsa, Hsb; congruence.
Qed.

Lemma adjacent_projects_on_sample :
  let result := adjacentProjectsQuery sample "2024-01-01" "vase" in
  match previous result with
  | Some link =>
      exists p d,
        p ∈ sample /\ link = link_projection p /\ _type p = "project"
        /\ date p = Some d /\ String.ltb "2024-01-01" d = true
        /\ slug_current p <> Some "vase"
        /\ (forall q d', q ∈ sample -> _type q = "project" -> date q = Some d' ->
                         String.ltb "2024-01-01" d' = true -> String.leb d d' = true)
  | None =>
      forall q d', q ∈ sample -> _type q = "project" -> date q = Some d' ->
                   String.ltb "2024-01-01" d' = false
  end
  /\ match next result with
     | Some link =>
         exists p d,
           p ∈ sample /\ link = link_projection p /\ _type p = "project"
           /\ date p = Some d /\ String.ltb d "2024-01-01" = true
           /\ slug_current p <> Some "vase"
           /\ (forall q d', q ∈ sample -> _type q = "project" -> date q = Some d' ->
                            String.ltb d' "2024-01-01" = true -> String.leb d' d = true)
     | None =>
         forall q d', q ∈ sample -> _type q = "project" -> date q = Some d' ->
                      String.ltb d' "2024-01-01" = false
     end.
Proof.
  apply (adjacent_projects sample "2024-01-01" "vase" sample_unique_slugs
           (ex_intro _ (document "project" "p1" "vase" None (Some "2024-01-01"))
              (conj (list_elem_of_here _ _) (conj eq_refl (conj eq_refl eq_refl))))).
Defined.

End Queries.
